(** * CombineClasses: merging near-duplicate class types

    A shallow embedding of [src/CombineClasses.ts] and a verification of
    the properties its specification states about it.

    Conventions of the embedding.
    - An Immutable.js [Map<string, V>] is a [gmap string V]; [forEach]
      walks the entries of the map ([map_to_list]) and stops as soon as
      the callback returns [false].
    - An [OrderedSet<T>] and a JavaScript array are lists, in insertion
      order; an [OrderedMap<string, number>] is an association list, keys
      in insertion order.
    - [size] and the occurrence counts are integers far below 2^53, and
      3/4 is a dyadic rational, so every floating point operation of the
      source is exact: numbers are modelled in [Z] and [Q].
    - [assert] and [panic] throw; a function that may throw returns a
      [result]. *)

From stdpp Require Import gmap strings list fin_maps.
From Stdlib Require Import QArith Qround.

Local Close Scope Q_scope.
Local Open Scope Z_scope.

(** ** Failure *)

Inductive result (A : Type) : Type :=
| Ok (a : A)
| Thrown (msg : string)
| OutOfFuel.

Arguments Ok {A} a.
Arguments Thrown {A} msg.
Arguments OutOfFuel {A}.

#[export] Instance result_ret : MRet result := λ A a, Ok a.

#[export] Instance result_bind : MBind result := λ A B k r,
  match r with
  | Ok a => k a
  | Thrown msg => Thrown msg
  | OutOfFuel => OutOfFuel
  end.

(** [assert(cond, msg)] of [Support.ts]. *)
Definition assert (cond : bool) (msg : string) : result unit :=
  if cond then Ok tt else Thrown ("Assertion failed: " ++ msg).

(** [panic(msg)] of [Support.ts]. *)
Definition panic {A : Type} (msg : string) : result A :=
  Thrown ("Internal error: " ++ msg).

(** ** Types

    Modelled from the spec: [Type.ts] is not part of the sources.  The
    specification's data model gives a type a kind, a structural
    equality, its non-null members and, for a string type, an optional
    histogram of the observed values.  A class (record) type in field
    position is the graph node of that class.  The kinds carry the names
    of the source's types; the code reads only "string" and, through
    [nonNullTypeCases], "null". *)

Inductive PrimitiveKind := PNull | PBool | PInteger | PDouble | PAny.

#[warnings="-register-all"] Inductive Ty : Type :=
| PrimitiveType (p : PrimitiveKind)
| StringType (enumCases : option (list (string * Z)))
| ClassRef (typeRef : nat)
| ArrayType (items : Ty)
| MapType (values : Ty)
| UnionType (members : list Ty).

Definition primitiveKindName (p : PrimitiveKind) : string :=
  match p with
  | PNull => "null"
  | PBool => "bool"
  | PInteger => "integer"
  | PDouble => "double"
  | PAny => "any"
  end.

(** [t.kind] *)
Definition kind (t : Ty) : string :=
  match t with
  | PrimitiveType p => primitiveKindName p
  | StringType _ => "string"
  | ClassRef _ => "class"
  | ArrayType _ => "array"
  | MapType _ => "map"
  | UnionType _ => "union"
  end.

Definition primitiveKind_eqb (p q : PrimitiveKind) : bool :=
  match p, q with
  | PNull, PNull | PBool, PBool | PInteger, PInteger
  | PDouble, PDouble | PAny, PAny => true
  | _, _ => false
  end.

Definition enumCases_eqb (e1 e2 : option (list (string * Z))) : bool :=
  bool_decide (e1 = e2).

(** Two member lists are equal when they are equal member by member. *)
Definition membersEqual (eqb : Ty → Ty → bool) : list Ty → list Ty → bool :=
  fix go (l1 l2 : list Ty) {struct l1} : bool :=
    match l1, l2 with
    | [], [] => true
    | x :: l1', y :: l2' => eqb x y && go l1' l2'
    | _, _ => false
    end.

(** [t.equals(other)]: structural equality. *)
Fixpoint equals (t other : Ty) {struct t} : bool :=
  match t, other with
  | PrimitiveType p, PrimitiveType q => primitiveKind_eqb p q
  | StringType e1, StringType e2 => enumCases_eqb e1 e2
  | ClassRef r1, ClassRef r2 => Nat.eqb r1 r2
  | ArrayType i1, ArrayType i2 => equals i1 i2
  | MapType v1, MapType v2 => equals v1 v2
  | UnionType m1, UnionType m2 => membersEqual equals m1 m2
  | _, _ => false
  end.

(** [t instanceof StringType] *)
Definition isStringType (t : Ty) : bool :=
  match t with
  | StringType _ => true
  | _ => false
  end.

(** [nonNullTypeCases(t)]: nothing for the null type, the members other
    than null for a union, the type itself otherwise. *)
Definition nonNullTypeCases (t : Ty) : list Ty :=
  match t with
  | PrimitiveType PNull => []
  | UnionType members => filter (λ m, kind m ≠ "null") members
  | _ => [t]
  end.

(** ** Classes *)

(** Modelled from the spec: [TypeNames.ts] is not part of the sources; a
    bundle of name hints is the list of the suggested names, and the
    union of bundles collects the names of all of them. *)
Definition TypeNames : Type := list string.

Definition typeNamesUnion (bundles : list TypeNames) : TypeNames :=
  concat bundles.

Record ClassType : Type := {
  typeRef : nat;
  getNames : TypeNames;
  isFixed : bool;
  properties : gmap string Ty
}.

(** ** The combinability predicate *)

Definition REQUIRED_OVERLAP : Q := (3 # 4)%Q.

(** [n * REQUIRED_OVERLAP] for a size [n]. *)
Definition overlapOf (n : nat) : Q :=
  (inject_Z (Z.of_nat n) * REQUIRED_OVERLAP)%Q.

(** [m < n * REQUIRED_OVERLAP] for sizes [m] and [n]. *)
Definition sizeBelowOverlap (m n : nat) : bool :=
  negb (Qle_bool (overlapOf n) (inject_Z (Z.of_nat m))).

(** [Map(s2.map(t => [t.kind, t]))]: the entries are set in the order of
    [s2], so a later member replaces an earlier one of the same kind. *)
Definition byKind (s2 : list Ty) : gmap string Ty :=
  fold_left (λ m t, <[kind t := t]> m) s2 ∅.

Definition typeSetsCanBeCombined (s1 s2 : list Ty) : bool :=
  if negb (Nat.eqb (length s1) (length s2)) then false
  else
    let s2ByKind := byKind s2 in
    forallb
      (λ t,
         let kind := kind t in
         match s2ByKind !! kind with
         | None => false
         | Some other =>
             if equals t other then true
             else if String.eqb kind "string" then true
             else false
         end)
      s1.

(** [larger.has(name)] *)
Definition has (m : gmap string Ty) (name : string) : bool :=
  bool_decide (is_Some (m !! name)).

(** The [forEach] over [smaller]: the state is [commonProperties] and
    [faults]; the callback returns [false], which ends the iteration,
    once [faults] exceeds [maxFaults]. *)
Fixpoint walkSmaller (larger : gmap string Ty) (maxFaults : Z)
    (entries : list (string * Ty)) (commonProperties : list string)
    (faults : Z) : list string * Z :=
  match entries with
  | [] => (commonProperties, faults)
  | (name, _) :: rest =>
      if has larger name then
        walkSmaller larger maxFaults rest (commonProperties ++ [name]) faults
      else
        let faults := faults + 1 in
        if faults >? maxFaults then (commonProperties, faults)
        else walkSmaller larger maxFaults rest commonProperties faults
  end.

Definition isEmpty {A : Type} (l : list A) : bool :=
  match l with
  | [] => true
  | _ => false
  end.

(** The [for (const name of commonProperties)] loop. *)
Fixpoint checkCommon (smaller larger : gmap string Ty)
    (commonProperties : list string) : result bool :=
  match commonProperties with
  | [] => Ok true
  | name :: rest =>
      match smaller !! name, larger !! name with
      | Some ts, Some tl =>
          let tsCases := nonNullTypeCases ts in
          let tlCases := nonNullTypeCases tl in
          if negb (isEmpty tsCases) && negb (isEmpty tlCases)
             && negb (typeSetsCanBeCombined tsCases tlCases)
          then Ok false
          else checkCommon smaller larger rest
      | _, _ => panic "Both of these should have this property"
      end
  end.

(** [larger] and [smaller] as chosen by [canBeCombined]: on a tie the
    second class is the larger one. *)
Definition largerOf (p1 p2 : gmap string Ty) : gmap string Ty :=
  if (size p2 <? size p1)%nat then p1 else p2.

Definition smallerOf (p1 p2 : gmap string Ty) : gmap string Ty :=
  if (size p2 <? size p1)%nat then p2 else p1.

Definition minOverlapOf (larger : gmap string Ty) : Z :=
  Qceiling (overlapOf (size larger)).

Definition maxFaultsOf (smaller larger : gmap string Ty) : Z :=
  Z.of_nat (size smaller) - minOverlapOf larger.

Definition canBeCombined (c1 c2 : ClassType) : result bool :=
  let p1 := properties c1 in
  let p2 := properties c2 in
  if sizeBelowOverlap (size p1) (size p2)
     || sizeBelowOverlap (size p2) (size p1)
  then Ok false
  else
    let larger := largerOf p1 p2 in
    let smaller := smallerOf p1 p2 in
    let minOverlap := minOverlapOf larger in
    let maxFaults := Z.of_nat (size smaller) - minOverlap in
    _ ← assert (maxFaults >=? 0) "Max faults negative";
    let '(commonProperties, faults) :=
      walkSmaller larger maxFaults (map_to_list smaller) [] 0 in
    if faults >? maxFaults then Ok false
    else checkCommon smaller larger commonProperties.

(** ** The clique builder *)

Fixpoint isPartOfClique (c : ClassType) (clique : list ClassType)
    : result bool :=
  match clique with
  | [] => Ok true
  | cc :: rest =>
      b ← canBeCombined c cc;
      if negb b then Ok false else isPartOfClique c rest
  end.

(** The [for] loop of one round over [unprocessedClasses[1..]]: the
    state is [clique] and [classesLeft], both grown by [push]. *)
Fixpoint sweep (candidates clique classesLeft : list ClassType)
    : result (list ClassType * list ClassType) :=
  match candidates with
  | [] => Ok (clique, classesLeft)
  | c :: rest =>
      b ← isPartOfClique c clique;
      if b : bool then sweep rest (clique ++ [c]) classesLeft
      else sweep rest clique (classesLeft ++ [c])
  end.

(** The [while (unprocessedClasses.length > 0)] loop; [fuel] bounds the
    number of rounds. *)
Fixpoint buildCliques (fuel : nat) (unprocessedClasses : list ClassType)
    (cliques : list (list ClassType)) : result (list (list ClassType)) :=
  match unprocessedClasses with
  | [] => Ok cliques
  | seed :: candidates =>
      match fuel with
      | O => OutOfFuel
      | S fuel =>
          '(clique, classesLeft) ← sweep candidates [seed] [];
          let cliques :=
            if (1 <? length clique)%nat then cliques ++ [clique]
            else cliques in
          buildCliques fuel classesLeft cliques
      end
  end.

(** Modelled from the spec: [TypeGraph.ts] is not part of the sources;
    of the graph only the ordered listing of its named class types is
    read here. *)
Record TypeGraph : Type := {
  allNamedClasses : list ClassType
}.

(** The loop of [combineClasses] together with its initial state: the
    list has at most as many rounds as members. *)
Definition cliqueBuilder (unprocessedClasses : list ClassType)
    : result (list (list ClassType)) :=
  buildCliques (length unprocessedClasses) unprocessedClasses [].

(** The first half of [combineClasses]: the cliques handed to
    [graph.rewrite]. *)
Definition cliquesOf (graph : TypeGraph) : result (list (list ClassType)) :=
  let unprocessedClasses :=
    filter (λ c, isFixed c = false) (allNamedClasses graph) in
  cliqueBuilder unprocessedClasses.

(** ** The property merger *)

(** Modelled from the spec: [TypeBuilder.ts] is not part of the sources;
    a reference into the new graph is the term of builder calls that
    made it. *)
#[warnings="-register-all"] Inductive TypeRef : Type :=
| getPrimitiveType (kind : string)
| getStringType (names : TypeNames) (enumCases : option (list (string * Z)))
| reconstituteType (t : Ty)
| makeNullable (tref : TypeRef) (names : TypeNames)
| getClassType (names : TypeNames) (properties : list (string * TypeRef)).

(** [t.enumCases] *)
Definition enumCases (t : Ty) : option (list (string * Z)) :=
  match t with
  | StringType cases => cases
  | _ => None
  end.

(** [defined(x)] of [Support.ts]. *)
Definition defined {A : Type} (x : option A) : result A :=
  match x with
  | Some a => Ok a
  | None => panic "Defined value expected, but got undefined"
  end.

(** [OrderedMap.update(key, NOT_SET, existing => existing === NOT_SET ?
    value : merger(existing, value))]: an existing key keeps its place, a
    new key goes last. *)
Fixpoint update (merger : Z → Z → Z) (m : list (string * Z))
    (key : string) (value : Z) : list (string * Z) :=
  match m with
  | [] => [(key, value)]
  | (k, existing) :: rest =>
      if String.eqb k key then (k, merger existing value) :: rest
      else (k, existing) :: update merger rest key value
  end.

(** [l.mergeWith(merger, r)] *)
Definition mergeWith (merger : Z → Z → Z) (l r : list (string * Z))
    : list (string * Z) :=
  fold_left (λ acc entry, update merger acc entry.1 entry.2) r l.

(** [list.reduce(f)] without an initial value. *)
Definition reduce {A : Type} (f : A → A → A) (l : list A) : result A :=
  match l with
  | [] => Thrown "TypeError: Reduce of empty collection with no initial value"
  | first :: rest => Ok (fold_left f rest first)
  end.

Fixpoint mapM {A B : Type} (f : A → result B) (l : list A)
    : result (list B) :=
  match l with
  | [] => Ok []
  | x :: rest => y ← f x; ys ← mapM f rest; Ok (y :: ys)
  end.

Definition hasEnumCases (t : Ty) : bool :=
  match enumCases t with
  | Some _ => true
  | None => false
  end.

Definition makePropertyType (names : TypeNames) (types : list Ty)
    (isNullable : bool) : result TypeRef :=
  resultType ←
    match types with
    | [] => Ok (getPrimitiveType "null")
    | first :: _ =>
        if isStringType first then
          _ ← assert (forallb isStringType types)
                "We can't combine strings with other types when combining classes";
          let stringTypes := types in
          if forallb hasEnumCases stringTypes then
            allEnumCases ← mapM (λ t, defined (enumCases t)) stringTypes;
            mergedCases ← reduce (mergeWith Z.add) allEnumCases;
            Ok (getStringType names (Some mergedCases))
          else Ok (reconstituteType first)
        else Ok (reconstituteType first)
    end;
  Ok (if isNullable then makeNullable resultType names else resultType).

(** ** The merged class and the rewrite *)

Section Merge.

(** [getCliqueProperties] of [UnifyClasses.ts] and [graph.rewrite] of
    [TypeGraph.ts] are not part of the sources: they are parameters of
    the code that calls them, and so is the type of the new graph. *)
Variable NewGraph : Type.
Variable getCliqueProperties :
  list ClassType → (TypeNames → list Ty → bool → result TypeRef) →
  result (list (string * TypeRef)).
Variable rewrite :
  TypeGraph → list (list ClassType) → (list ClassType → result TypeRef) →
  result NewGraph.

Definition makeCliqueClass (clique : list ClassType) : result TypeRef :=
  _ ← assert (0 <? length clique)%nat "Clique can't be empty";
  let allNames := map getNames clique in
  properties ← getCliqueProperties clique makePropertyType;
  Ok (getClassType (typeNamesUnion allNames) properties).

(** [combineClasses(graph, stringTypeMapping)]; the string type mapping
    is only passed on to [rewrite]. *)
Definition combineClasses (graph : TypeGraph) : result NewGraph :=
  cliques ← cliquesOf graph;
  rewrite graph cliques makeCliqueClass.

End Merge.

(** ** Notions used to state the properties *)

(** The number of field names of [smaller] that [larger] lacks. *)
Definition absentFrom (smaller larger : gmap string Ty) : nat :=
  size (dom smaller ∖ dom larger).

(** On every field that both maps have, with a non-null member on both
    sides, the two member sets can be combined. *)
Definition commonFieldsAgree (smaller larger : gmap string Ty) : Prop :=
  ∀ name ts tl,
    smaller !! name = Some ts → larger !! name = Some tl →
    nonNullTypeCases ts ≠ [] → nonNullTypeCases tl ≠ [] →
    typeSetsCanBeCombined (nonNullTypeCases ts) (nonNullTypeCases tl) = true.

(** The member of [s2] that the index by kind holds for the kind [k]:
    the last member of that kind. *)
Definition lastOfKind (k : string) (s2 : list Ty) : option Ty :=
  last (filter (λ t, kind t = k) s2).

(** [t] has a counterpart in [s2]: a member of the same kind that is
    equal to it, or both are of kind string. *)
Definition hasCounterpart (t : Ty) (s2 : list Ty) : Prop :=
  ∃ other, other ∈ s2 ∧ kind other = kind t
           ∧ (equals t other = true
              ∨ (kind t = "string" ∧ kind other = "string")).

(** No two members of the set are of the same kind. *)
Definition oneOfEachKind (s : list Ty) : Prop := NoDup (kind <$> s).

(** Every field of the class has at most one non-null member of each
    kind. *)
Definition fieldsOneOfEachKind (c : ClassType) : Prop :=
  map_Forall (λ _ t, oneOfEachKind (nonNullTypeCases t)) (properties c).

(** Every member of the clique combines with each member admitted
    before it; the candidate is the first argument of the predicate, as
    in [isPartOfClique]. *)
Definition admittedInTurn (clique : list ClassType) : Prop :=
  ∀ i j ci cj,
    (i < j)%nat → clique !! i = Some ci → clique !! j = Some cj →
    canBeCombined cj ci = Ok true.


(** [cases.get(value)] on an ordered map. *)
Fixpoint get (cases : list (string * Z)) (value : string) : option Z :=
  match cases with
  | [] => None
  | (k, count) :: rest =>
      if String.eqb k value then Some count else get rest value
  end.

(** How often a histogram has seen a value: nothing when it lacks it. *)
Definition occurrences (cases : list (string * Z)) (value : string) : Z :=
  default 0 (get cases value).

(** The occurrences of a value summed over several histograms. *)
Definition totalOccurrences (allEnumCases : list (list (string * Z)))
    (value : string) : Z :=
  foldr (λ cases total, occurrences cases value + total) 0 allEnumCases.

(** A string type that carries the histogram [cases]. *)
Definition enumOf (cases : list (string * Z)) : Ty := StringType (Some cases).

(** ** Sample types, classes and graphs *)

Definition plainString : Ty := StringType None.
Definition integerType : Ty := PrimitiveType PInteger.
Definition nullType : Ty := PrimitiveType PNull.

Definition classOf (ref : nat) (fields : list (string * Ty)) : ClassType :=
  {| typeRef := ref; getNames := []; isFixed := false;
     properties := list_to_map fields |}.



(** The classes [A{w,x,y,z}] and [B{x,y,z}] of the specification. *)
Definition fourFields : ClassType :=
  classOf 3 [("w", integerType); ("x", integerType); ("y", integerType);
             ("z", integerType)].

Definition threeFields : ClassType :=
  classOf 4 [("x", integerType); ("y", integerType); ("z", integerType)].

(** Two classes whose only field is a string or an integer. *)
Definition stringOrIntegerA : ClassType :=
  classOf 5 [("f", UnionType [plainString; integerType])].

Definition stringOrIntegerB : ClassType :=
  classOf 6 [("f", UnionType [plainString; integerType])].

(** A class whose field is a string, one whose field is null, and one
    whose field is a string or null. *)
Definition stringField : ClassType := classOf 7 [("f", plainString)].

Definition nullField : ClassType := classOf 8 [("f", nullType)].

Definition nullableStringField : ClassType :=
  classOf 11 [("f", UnionType [plainString; nullType])].

Definition pinnedThreeFields : ClassType :=
  {| typeRef := 9; getNames := []; isFixed := true;
     properties := properties threeFields |}.


(** ** Notions and samples for the further properties *)

(** The number of observations that a histogram records. *)
Definition totalCount (cases : list (string * Z)) : Z :=
  foldr (λ entry total, entry.2 + total) 0 cases.

(** Every member of a later clique fails the predicate, as candidate,
    against some member of each earlier clique. *)
Definition laterRejected (cliques : list (list ClassType)) : Prop :=
  ∀ i j qi qj r,
    (i < j)%nat → cliques !! i = Some qi → cliques !! j = Some qj →
    r ∈ qj → ∃ cc, cc ∈ qi ∧ canBeCombined r cc = Ok false.

(** A class without fields, and one whose field is one of two classes. *)
Definition noFields : ClassType := classOf 12 [].

Definition twoClassesField : ClassType :=
  classOf 13 [("f", UnionType [ClassRef 1; ClassRef 2])].

(** Two field maps have the same field names and, field by field, the
    same non-null members. *)
Definition sameNonNullCases (p p' : gmap string Ty) : Prop :=
  ∀ name, nonNullTypeCases <$> p !! name = nonNullTypeCases <$> p' !! name.

(** * Verification *)

(** ** Arithmetic of the size gate *)

Lemma sizeBelowOverlap_lt (m n : nat) :
  sizeBelowOverlap m n = true ↔ 4 * Z.of_nat m < 3 * Z.of_nat n.
Proof.
  unfold sizeBelowOverlap, overlapOf, REQUIRED_OVERLAP.
  rewrite negb_true_iff, <- not_true_iff_false, Qle_bool_iff.
  unfold Qle; simpl. lia.
Qed.

Lemma sizeBelowOverlap_ge (m n : nat) :
  sizeBelowOverlap m n = false ↔ (overlapOf n <= inject_Z (Z.of_nat m))%Q.
Proof.
  unfold sizeBelowOverlap.
  rewrite negb_false_iff. apply Qle_bool_iff.
Qed.

Lemma overlapOf_le (m n : nat) :
  (overlapOf n <= inject_Z (Z.of_nat m))%Q ↔ 3 * Z.of_nat n ≤ 4 * Z.of_nat m.
Proof.
  unfold overlapOf, REQUIRED_OVERLAP, Qle; simpl. lia.
Qed.

Lemma minOverlap_le (m n : nat) :
  (overlapOf n <= inject_Z (Z.of_nat m))%Q →
  Qceiling (overlapOf n) ≤ Z.of_nat m.
Proof.
  intros H. apply Qceiling_resp_le in H. by rewrite Qceiling_Z in H.
Qed.

Lemma minOverlapOf_integer (larger : gmap string Ty) :
  minOverlapOf larger = (3 * Z.of_nat (size larger) + 3) / 4.
Proof.
  unfold minOverlapOf, overlapOf, REQUIRED_OVERLAP, Qceiling, Qfloor.
  simpl. generalize (Z.of_nat (size larger)). intros n.
  change (Z.pos (1 * 4)) with 4.
  pose proof (Z.div_mod (- (n * 3)) 4) as H1.
  pose proof (Z.mod_pos_bound (- (n * 3)) 4) as H2.
  pose proof (Z.div_mod (3 * n + 3) 4) as H3.
  pose proof (Z.mod_pos_bound (3 * n + 3) 4) as H4.
  lia.
Qed.

Lemma gate_larger_smaller (p1 p2 : gmap string Ty) :
  sizeBelowOverlap (size p1) (size p2) || sizeBelowOverlap (size p2) (size p1)
  = sizeBelowOverlap (size (smallerOf p1 p2)) (size (largerOf p1 p2)).
Proof.
  unfold smallerOf, largerOf.
  destruct (Nat.ltb_spec (size p2) (size p1)) as [Hlt|Hle].
  - destruct (sizeBelowOverlap (size p2) (size p1)) eqn:E2;
      [apply orb_true_r|].
    rewrite orb_false_r. apply not_true_iff_false.
    rewrite sizeBelowOverlap_lt. lia.
  - destruct (sizeBelowOverlap (size p1) (size p2)) eqn:E1; [done|].
    simpl. apply not_true_iff_false.
    rewrite sizeBelowOverlap_lt. lia.
Qed.

(** ** The walk over the smaller map *)

Lemma has_true (m : gmap string Ty) (name : string) :
  has m name = true ↔ is_Some (m !! name).
Proof. unfold has. apply bool_decide_eq_true. Qed.

Lemma has_false (m : gmap string Ty) (name : string) :
  has m name = false ↔ m !! name = None.
Proof.
  unfold has. rewrite bool_decide_eq_false. symmetry. apply eq_None_not_Some.
Qed.

Lemma walkSmaller_within larger maxFaults entries common faults :
  faults + Z.of_nat (length (filter (λ e, has larger e.1 = false) entries))
    ≤ maxFaults →
  walkSmaller larger maxFaults entries common faults
  = (common ++ (filter (λ e, has larger e.1 = true) entries).*1,
     faults
     + Z.of_nat (length (filter (λ e, has larger e.1 = false) entries))).
Proof.
  revert common faults.
  induction entries as [|[name t] rest IH]; intros common faults Hle; simpl.
  - by rewrite app_nil_r, Z.add_0_r.
  - rewrite !filter_cons in *; simpl in *.
    destruct (has larger name) eqn:Hhas.
    + rewrite decide_True by done.
      rewrite decide_False in Hle |- * by done.
      rewrite IH by done. simpl. by rewrite <- app_assoc.
    + rewrite decide_False by done.
      rewrite decide_True in Hle |- * by done.
      simpl in *.
      destruct (Z.gtb_spec (faults + 1) maxFaults) as [Hgt|_]; [lia|].
      rewrite IH by lia. f_equal. lia.
Qed.

Lemma walkSmaller_exceeds larger maxFaults entries common faults :
  maxFaults
    < faults + Z.of_nat (length (filter (λ e, has larger e.1 = false) entries)) →
  maxFaults < (walkSmaller larger maxFaults entries common faults).2.
Proof.
  revert common faults.
  induction entries as [|[name t] rest IH]; intros common faults Hlt; simpl.
  - simpl in Hlt. lia.
  - rewrite filter_cons in Hlt; simpl in Hlt.
    destruct (has larger name) eqn:Hhas.
    + rewrite decide_False in Hlt by done. by apply IH.
    + rewrite decide_True in Hlt by done. simpl in Hlt.
      destruct (Z.gtb_spec (faults + 1) maxFaults) as [Hgt|Hle]; [done|].
      apply IH. lia.
Qed.

Lemma absent_entries_count (smaller larger : gmap string Ty) :
  length (filter (λ e : string * Ty, has larger e.1 = false)
            (map_to_list smaller))
  = absentFrom smaller larger.
Proof.
  unfold absentFrom.
  induction smaller as [|name t m Hfresh IH] using map_ind.
  - rewrite map_to_list_empty, dom_empty_L. simpl.
    replace (∅ ∖ dom larger) with (∅ : gset string) by set_solver.
    by rewrite size_empty.
  - rewrite map_to_list_insert by done.
    rewrite filter_cons; simpl.
    rewrite dom_insert_L.
    destruct (has larger name) eqn:Hhas.
    + rewrite decide_False by done. rewrite IH.
      apply has_true, elem_of_dom in Hhas.
      f_equal. set_solver.
    + rewrite decide_True by done. simpl. rewrite IH.
      apply has_false, not_elem_of_dom in Hhas.
      apply not_elem_of_dom in Hfresh.
      replace (({[name]} ∪ dom m) ∖ dom larger)
        with ({[name]} ∪ (dom m ∖ dom larger)) by set_solver.
      rewrite (size_union {[name]} (dom m ∖ dom larger)) by set_solver.
      by rewrite size_singleton.
Qed.

(** ** The loop over the common properties *)

Lemma isEmpty_false {A : Type} (l : list A) : isEmpty l = false ↔ l ≠ [].
Proof. by destruct l. Qed.

Lemma checkCommon_spec smaller larger names :
  (∀ name, name ∈ names →
     is_Some (smaller !! name) ∧ is_Some (larger !! name)) →
  ∃ b, checkCommon smaller larger names = Ok b
       ∧ (b = true ↔
          ∀ name ts tl, name ∈ names →
            smaller !! name = Some ts → larger !! name = Some tl →
            nonNullTypeCases ts ≠ [] → nonNullTypeCases tl ≠ [] →
            typeSetsCanBeCombined (nonNullTypeCases ts) (nonNullTypeCases tl)
            = true).
Proof.
  induction names as [|name rest IH]; intros Hboth; simpl.
  - exists true. split; [done|]. split; [|done].
    intros _ name ts tl Hin. by apply elem_of_nil in Hin.
  - destruct (Hboth name) as [[ts Hs] [tl Hl]]; [by left|].
    rewrite Hs, Hl.
    destruct IH as (b & Hb & Hiff).
    { intros n Hn. apply Hboth. by right. }
    destruct (isEmpty (nonNullTypeCases ts)) eqn:Es;
      destruct (isEmpty (nonNullTypeCases tl)) eqn:El;
      destruct (typeSetsCanBeCombined (nonNullTypeCases ts)
                  (nonNullTypeCases tl)) eqn:Et; simpl.
    all: try (exists b; split; [done|]; rewrite Hiff; split;
      [ intros Hall n ts' tl' Hn Hs' Hl' Hne1 Hne2;
        apply elem_of_cons in Hn as [->|Hn]; [|by eapply Hall];
        rewrite Hs in Hs'; rewrite Hl in Hl';
        injection Hs' as <-; injection Hl' as <-;
        first [done | by destruct (nonNullTypeCases ts)
                    | by destruct (nonNullTypeCases tl)]
      | intros Hall n ts' tl' Hn; apply Hall; by right ]).
    exists false. split; [done|]. split; [done|].
    intros Hall. rewrite <- Et.
    apply (Hall name ts tl); [by left|done|done| |];
      by apply isEmpty_false.
Qed.

(** ** The predicate as a whole *)

Lemma common_entries smaller larger (name : string) :
  name ∈ (filter (λ e : string * Ty, has larger e.1 = true)
            (map_to_list smaller)).*1
  ↔ is_Some (smaller !! name) ∧ is_Some (larger !! name).
Proof.
  rewrite list_elem_of_fmap. split.
  - intros ([n t] & -> & Hin). apply list_elem_of_filter in Hin as [Hhas Hin].
    apply elem_of_map_to_list in Hin. simpl in *.
    split; [by exists t|by apply has_true].
  - intros [[t Ht] Hl]. exists (name, t). split; [done|].
    apply list_elem_of_filter. split; [by apply has_true|].
    by apply elem_of_map_to_list.
Qed.

Lemma canBeCombined_spec (c1 c2 : ClassType) :
  let larger := largerOf (properties c1) (properties c2) in
  let smaller := smallerOf (properties c1) (properties c2) in
  ∃ b, canBeCombined c1 c2 = Ok b
       ∧ (b = true ↔
          (overlapOf (size larger) <= inject_Z (Z.of_nat (size smaller)))%Q
          ∧ Z.of_nat (absentFrom smaller larger) ≤ maxFaultsOf smaller larger
          ∧ commonFieldsAgree smaller larger).
Proof.
  intros larger smaller. unfold canBeCombined.
  rewrite gate_larger_smaller. fold larger smaller.
  destruct (sizeBelowOverlap (size smaller) (size larger)) eqn:Egate.
  { exists false. split; [done|]. split; [done|].
    intros [Hgate _]. apply sizeBelowOverlap_ge in Hgate. congruence. }
  apply sizeBelowOverlap_ge in Egate.
  pose proof (minOverlap_le _ _ Egate) as Hmin.
  fold (minOverlapOf larger). fold (maxFaultsOf smaller larger).
  assert (0 ≤ maxFaultsOf smaller larger) as Hnonneg
    by (unfold maxFaultsOf, minOverlapOf; lia).
  unfold assert.
  destruct (Z.geb_spec (maxFaultsOf smaller larger) 0) as [_|Hneg]; [|lia].
  simpl.
  destruct (decide (Z.of_nat (absentFrom smaller larger)
                    ≤ maxFaultsOf smaller larger)) as [Hfew|Hmany].
  - rewrite walkSmaller_within
      by (rewrite absent_entries_count; lia).
    rewrite absent_entries_count. simpl.
    destruct (Z.gtb_spec (0 + Z.of_nat (absentFrom smaller larger))
                (maxFaultsOf smaller larger)) as [Hgt|_]; [lia|].
    destruct (checkCommon_spec smaller larger
                (filter (λ e : string * Ty, has larger e.1 = true)
                   (map_to_list smaller)).*1) as (b & Hb & Hiff).
    { intros name Hin. by apply common_entries. }
    exists b. split; [done|]. rewrite Hiff. split.
    + intros Hall. do 2 (split; [done|]).
      intros name ts tl Hs Hl. apply (Hall name); [|done..].
      apply common_entries. by rewrite Hs, Hl.
    + intros (_ & _ & Hall) name ts tl _. apply (Hall name).
  - pose proof (walkSmaller_exceeds larger (maxFaultsOf smaller larger)
                  (map_to_list smaller) [] 0) as Hex.
    rewrite absent_entries_count in Hex.
    destruct (walkSmaller larger (maxFaultsOf smaller larger)
                (map_to_list smaller) [] 0) as [common faults].
    simpl in Hex.
    destruct (Z.gtb_spec faults (maxFaultsOf smaller larger)) as [_|Hle];
      [|lia].
    exists false. split; [done|]. split; [done|].
    intros (_ & Hfew & _). lia.
Qed.

(** ** Combinability of type sets *)

Lemma byKind_snoc (s : list Ty) (t : Ty) :
  byKind (s ++ [t]) = <[kind t := t]> (byKind s).
Proof. unfold byKind. by rewrite fold_left_app. Qed.

Lemma byKind_lookup (s2 : list Ty) (k : string) :
  byKind s2 !! k = lastOfKind k s2.
Proof.
  unfold lastOfKind.
  induction s2 as [|t s IH] using rev_ind; [done|].
  rewrite byKind_snoc, filter_app, filter_cons, filter_nil.
  destruct (decide (kind t = k)) as [Heq|Hne].
  - rewrite last_snoc. subst k. apply lookup_insert_eq.
  - rewrite app_nil_r, lookup_insert_ne by done. apply IH.
Qed.

Lemma lastOfKind_Some (k : string) (s : list Ty) (other : Ty) :
  lastOfKind k s = Some other → other ∈ s ∧ kind other = k.
Proof.
  unfold lastOfKind. intros Hlast.
  apply last_Some in Hlast as [l Hl].
  assert (other ∈ filter (λ t, kind t = k) s) as Hin
    by (rewrite Hl; set_solver).
  by apply list_elem_of_filter in Hin as [? ?].
Qed.

Lemma lastOfKind_is_Some (k : string) (s : list Ty) (t : Ty) :
  t ∈ s → kind t = k → is_Some (lastOfKind k s).
Proof.
  intros Hin Hk. unfold lastOfKind.
  destruct (last (filter (λ t, kind t = k) s)) eqn:E; [by eexists|].
  apply last_None in E.
  assert (t ∈ filter (λ t, kind t = k) s) as Hf
    by (apply list_elem_of_filter; done).
  rewrite E in Hf. by apply elem_of_nil in Hf.
Qed.

Lemma oneOfEachKind_inj (s : list Ty) (t u : Ty) :
  oneOfEachKind s → t ∈ s → u ∈ s → kind t = kind u → t = u.
Proof.
  unfold oneOfEachKind. induction s as [|x s IH]; intros Hnd Ht Hu Hk.
  - by apply elem_of_nil in Ht.
  - rewrite fmap_cons in Hnd. apply NoDup_cons in Hnd as [Hx Hnd].
    apply elem_of_cons in Ht as [->|Ht]; apply elem_of_cons in Hu as [->|Hu].
    + done.
    + exfalso. apply Hx. rewrite Hk. by apply list_elem_of_fmap_2.
    + exfalso. apply Hx. rewrite <- Hk. by apply list_elem_of_fmap_2.
    + by apply IH.
Qed.

Lemma lastOfKind_unique (s : list Ty) (t : Ty) :
  oneOfEachKind s → t ∈ s → lastOfKind (kind t) s = Some t.
Proof.
  intros Hone Hin.
  destruct (lastOfKind_is_Some (kind t) s t Hin eq_refl) as [u Hu].
  rewrite Hu. f_equal.
  apply lastOfKind_Some in Hu as [Huin Hk].
  by apply (oneOfEachKind_inj s).
Qed.

Lemma typeSetsCanBeCombined_spec (s1 s2 : list Ty) :
  typeSetsCanBeCombined s1 s2 = true
  ↔ length s1 = length s2
    ∧ ∀ t, t ∈ s1 →
        ∃ other, lastOfKind (kind t) s2 = Some other
                 ∧ (equals t other = true
                    ∨ (kind t = "string" ∧ kind other = "string")).
Proof.
  unfold typeSetsCanBeCombined.
  destruct (Nat.eqb_spec (length s1) (length s2)) as [Hlen|Hlen]; simpl.
  - rewrite forallb_forall. split.
    + intros Hall. split; [done|]. intros t Hin.
      apply list_elem_of_In, Hall in Hin.
      rewrite byKind_lookup in Hin.
      destruct (lastOfKind (kind t) s2) as [other|] eqn:Elast; [|done].
      exists other. split; [done|].
      destruct (equals t other); [by left|].
      destruct (String.eqb_spec (kind t) "string") as [Hstr|_]; [|done].
      right. split; [done|].
      apply lastOfKind_Some in Elast as [_ Hk]. congruence.
    + intros [_ Hall] t Hin.
      apply list_elem_of_In, Hall in Hin as (other & Hlast & Hok).
      rewrite byKind_lookup, Hlast.
      destruct (equals t other); [done|].
      destruct Hok as [Heq|[Hstr _]]; [done|].
      by rewrite Hstr.
  - split; [done|]. by intros [? _].
Qed.

(** ** Structural equality *)

Lemma Ty_nested_ind (P : Ty → Prop) :
  (∀ p, P (PrimitiveType p)) →
  (∀ e, P (StringType e)) →
  (∀ r, P (ClassRef r)) →
  (∀ t, P t → P (ArrayType t)) →
  (∀ t, P t → P (MapType t)) →
  (∀ ms, Forall P ms → P (UnionType ms)) →
  ∀ t, P t.
Proof.
  intros Hp Hs Hc Ha Hm Hu. fix IH 1. intros [p|e|r|t|t|ms].
  - apply Hp.
  - apply Hs.
  - apply Hc.
  - apply Ha, IH.
  - apply Hm, IH.
  - apply Hu. revert ms. fix IHms 1. intros [|m ms].
    + constructor.
    + constructor; [apply IH|apply IHms].
Qed.

Lemma membersEqual_sym (eqb : Ty → Ty → bool) (l1 : list Ty) :
  Forall (λ t, ∀ u, eqb t u = eqb u t) l1 →
  ∀ l2, membersEqual eqb l1 l2 = membersEqual eqb l2 l1.
Proof.
  induction 1 as [|x l1 Hx _ IH]; intros [|y l2]; simpl; try done.
  by rewrite Hx, IH.
Qed.

Lemma equals_sym (t u : Ty) : equals t u = equals u t.
Proof.
  revert u. induction t as [p|e|r|t IH|t IH|ms IH] using Ty_nested_ind;
    intros [q|e'|r'|u|u|ms']; simpl; try done.
  - by destruct p, q.
  - unfold enumCases_eqb. apply bool_decide_ext. split; congruence.
  - apply Nat.eqb_sym.
  - by apply membersEqual_sym.
Qed.

Lemma typeSetsCanBeCombined_sym_true (s1 s2 : list Ty) :
  oneOfEachKind s1 → oneOfEachKind s2 →
  typeSetsCanBeCombined s1 s2 = true → typeSetsCanBeCombined s2 s1 = true.
Proof.
  intros H1 H2. rewrite !typeSetsCanBeCombined_spec.
  intros [Hlen Hall]. split; [done|]. intros u Hu.
  assert (kind <$> s1 ⊆ kind <$> s2) as Hsub.
  { intros k Hk. apply list_elem_of_fmap in Hk as (t & -> & Ht).
    destruct (Hall t Ht) as (other & Hlast & _).
    apply lastOfKind_Some in Hlast as [Hin <-].
    by apply list_elem_of_fmap_2. }
  assert (kind u ∈ kind <$> s1) as Hk.
  { apply (NoDup_submseteq _ _ H1) in Hsub as Hsubm.
    apply submseteq_length_Permutation in Hsubm;
      [|by rewrite !length_fmap, Hlen].
    rewrite Hsubm. by apply list_elem_of_fmap_2. }
  apply list_elem_of_fmap in Hk as (t & Hkind & Ht).
  exists t. split.
  { rewrite Hkind. by apply lastOfKind_unique. }
  destruct (Hall t Ht) as (other & Hlast & Hok).
  assert (other = u) as ->.
  { apply lastOfKind_Some in Hlast as [Hin Hko].
    apply (oneOfEachKind_inj s2); congruence. }
  rewrite equals_sym. destruct Hok as [Heq|[Hs1 Hs2]]; [by left|by right].
Qed.

Lemma typeSetsCanBeCombined_sym (s1 s2 : list Ty) :
  oneOfEachKind s1 → oneOfEachKind s2 →
  typeSetsCanBeCombined s1 s2 = typeSetsCanBeCombined s2 s1.
Proof.
  intros H1 H2.
  destruct (typeSetsCanBeCombined s1 s2) eqn:E12;
    destruct (typeSetsCanBeCombined s2 s1) eqn:E21; try done.
  - apply typeSetsCanBeCombined_sym_true in E12; [congruence|done..].
  - apply typeSetsCanBeCombined_sym_true in E21; [congruence|done..].
Qed.

(** ** Symmetry of the predicate *)



Lemma canBeCombined_total (c1 c2 : ClassType) :
  ∃ b, canBeCombined c1 c2 = Ok b.
Proof. destruct (canBeCombined_spec c1 c2) as (b & Hb & _). by exists b. Qed.


(** ** The clique builder *)

Lemma isPartOfClique_spec (c : ClassType) (clique : list ClassType) :
  ∃ b, isPartOfClique c clique = Ok b
       ∧ (b = true ↔ ∀ cc, cc ∈ clique → canBeCombined c cc = Ok true).
Proof.
  induction clique as [|cc rest (b & Hb & Hiff)]; simpl.
  - exists true. split; [done|]. split; [|done].
    intros _ cc Hin. by apply elem_of_nil in Hin.
  - destruct (canBeCombined_total c cc) as [[] Hcc]; rewrite Hcc; simpl.
    + exists b. split; [done|]. rewrite Hiff. split.
      * intros Hall x Hx. apply elem_of_cons in Hx as [->|Hx]; auto.
      * intros Hall x Hx. apply Hall. by right.
    + exists false. split; [done|]. split; [done|].
      intros Hall. specialize (Hall cc (list_elem_of_here _ _)). congruence.
Qed.

Lemma admittedInTurn_singleton (seed : ClassType) : admittedInTurn [seed].
Proof.
  intros i j ci cj Hlt Hi Hj.
  apply lookup_lt_Some in Hj. simpl in Hj. lia.
Qed.

Lemma admittedInTurn_snoc (clique : list ClassType) (c : ClassType) :
  admittedInTurn clique →
  (∀ cc, cc ∈ clique → canBeCombined c cc = Ok true) →
  admittedInTurn (clique ++ [c]).
Proof.
  intros Hclique Hc i j ci cj Hlt Hi Hj.
  destruct (decide (j < length clique)%nat) as [Hj'|Hj'].
  - rewrite lookup_app_l in Hi by lia. rewrite lookup_app_l in Hj by lia.
    by apply (Hclique i j).
  - pose proof (lookup_lt_Some _ _ _ Hj) as Hjlen.
    rewrite length_app in Hjlen. simpl in Hjlen.
    assert (j = length clique) as -> by lia.
    rewrite lookup_app_l in Hi by lia.
    rewrite list_lookup_middle in Hj by done. injection Hj as <-.
    apply Hc. by eapply list_elem_of_lookup_2.
Qed.

Lemma sweep_spec (candidates clique classesLeft : list ClassType) :
  admittedInTurn clique →
  ∃ added rejected,
    sweep candidates clique classesLeft
    = Ok (clique ++ added, classesLeft ++ rejected)
    ∧ candidates ≡ₚ added ++ rejected
    ∧ admittedInTurn (clique ++ added).
Proof.
  revert clique classesLeft.
  induction candidates as [|c rest IH]; intros clique classesLeft Hclique;
    simpl.
  - exists [], []. by rewrite !app_nil_r.
  - destruct (isPartOfClique_spec c clique) as ([] & Hb & Hiff);
      rewrite Hb; simpl.
    + destruct (IH (clique ++ [c]) classesLeft) as (added & rejected & Hs & Hp & Ha).
      { apply admittedInTurn_snoc; [done|]. by apply Hiff. }
      exists (c :: added), rejected.
      rewrite <- !app_assoc in *. simpl in *.
      split; [done|]. split; [by rewrite Hp|done].
    + destruct (IH clique (classesLeft ++ [c])) as (added & rejected & Hs & Hp & Ha);
        [done|].
      exists added, (c :: rejected).
      rewrite <- !app_assoc in *. simpl in *.
      split; [done|]. split; [|done].
      rewrite Hp. apply Permutation_middle.
Qed.

Lemma buildCliques_spec (fuel : nat) :
  ∀ unprocessedClasses cliques,
    (length unprocessedClasses ≤ fuel)%nat →
    ∃ emitted,
      buildCliques fuel unprocessedClasses cliques = Ok (cliques ++ emitted)
      ∧ Forall (λ clique, (2 ≤ length clique)%nat ∧ admittedInTurn clique)
          emitted
      ∧ concat emitted ⊆+ unprocessedClasses.
Proof.
  induction fuel as [|fuel IH]; intros [|seed candidates] cliques Hfuel;
    simpl in *; try lia.
  - exists []. by rewrite app_nil_r.
  - exists []. by rewrite app_nil_r.
  - destruct (sweep_spec candidates [seed] [])
      as (added & rejected & Hs & Hp & Ha);
      [apply admittedInTurn_singleton|].
    rewrite Hs. simpl.
    assert (length rejected ≤ fuel)%nat as Hrej.
    { apply Permutation_length in Hp. rewrite length_app in Hp. lia. }
    destruct added as [|c added]; simpl.
    + destruct (IH rejected cliques Hrej) as (emitted & He & Hall & Hsub).
      exists emitted. split; [done|]. split; [done|].
      rewrite Hsub. simpl in Hp. rewrite Hp. by apply submseteq_cons.
    + destruct (IH rejected (cliques ++ [seed :: c :: added]) Hrej)
        as (emitted & He & Hall & Hsub).
      exists ((seed :: c :: added) :: emitted).
      rewrite <- app_assoc in He. split; [done|]. split.
      * constructor; [|done]. split; [simpl; lia|done].
      * simpl. rewrite Hp. apply submseteq_skip.
        change (c :: added ++ concat emitted)
          with ((c :: added) ++ concat emitted).
        by apply submseteq_app.
Qed.

(** ** Merging histograms *)

Lemma get_None_fresh (cases : list (string * Z)) (value : string) :
  value ∉ cases.*1 → get cases value = None.
Proof.
  induction cases as [|[k count] rest IH]; [done|]. simpl. intros Hfresh.
  apply not_elem_of_cons in Hfresh as [Hne Hfresh].
  destruct (String.eqb_spec k value) as [->|_]; [done|]. by apply IH.
Qed.

Lemma get_is_Some (cases : list (string * Z)) (value : string) :
  is_Some (get cases value) ↔ value ∈ cases.*1.
Proof.
  induction cases as [|[k count] rest IH]; simpl.
  - split; [by intros [? ?]|by intros ?%elem_of_nil].
  - rewrite elem_of_cons.
    destruct (String.eqb_spec k value) as [->|Hne].
    + split; [by left|by eexists].
    + rewrite IH. split; [by right|]. by intros [->|?].
Qed.

Lemma update_get merger (cases : list (string * Z)) (key : string)
    (count : Z) (value : string) :
  get (update merger cases key count) value
  = if decide (key = value)
    then Some (match get cases key with
               | Some existing => merger existing count
               | None => count
               end)
    else get cases value.
Proof.
  induction cases as [|[k c] rest IH]; simpl.
  - destruct (String.eqb_spec key value) as [->|Hne].
    + by rewrite decide_True.
    + by rewrite decide_False.
  - destruct (String.eqb_spec k key) as [->|Hk]; simpl.
    + destruct (String.eqb_spec key value) as [->|Hne].
      * by rewrite decide_True.
      * by rewrite decide_False.
    + rewrite IH.
      destruct (String.eqb_spec k value) as [->|Hne]; [|done].
      by rewrite decide_False.
Qed.

Lemma update_keys merger (cases : list (string * Z)) (key : string)
    (count : Z) :
  (update merger cases key count).*1
  = if decide (key ∈ cases.*1) then cases.*1 else cases.*1 ++ [key].
Proof.
  induction cases as [|[k c] rest IH]; cbn [update].
  - destruct (decide (key ∈ ([] : list (string * Z)).*1)) as [Hin|_];
      [by apply elem_of_nil in Hin|done].
  - destruct (String.eqb_spec k key) as [->|Hk]; rewrite !fmap_cons;
      cbn [fst].
    + destruct (decide (key ∈ key :: rest.*1)) as [_|Hout]; [done|].
      exfalso. apply Hout. by left.
    + rewrite IH.
      destruct (decide (key ∈ rest.*1)) as [Hin|Hout];
        destruct (decide (key ∈ k :: rest.*1)) as [Hin'|Hout']; try done.
      * exfalso. apply Hout'. by right.
      * apply elem_of_cons in Hin' as [?|?]; congruence.
Qed.

Lemma update_NoDup merger (cases : list (string * Z)) (key : string)
    (count : Z) :
  NoDup cases.*1 → NoDup (update merger cases key count).*1.
Proof.
  intros Hnd. rewrite update_keys. case_decide; [done|].
  apply NoDup_app. split; [done|]. split; [|apply NoDup_singleton].
  intros x Hx ->%list_elem_of_singleton. done.
Qed.

Lemma mergeWith_NoDup merger (l r : list (string * Z)) :
  NoDup l.*1 → NoDup (mergeWith merger l r).*1.
Proof.
  unfold mergeWith. revert l.
  induction r as [|[key count] rest IH]; intros l Hl; simpl; [done|].
  by apply IH, update_NoDup.
Qed.

Lemma mergeWith_get merger (l r : list (string * Z)) (value : string) :
  NoDup r.*1 →
  get (mergeWith merger l r) value
  = match get r value with
    | None => get l value
    | Some count =>
        Some (match get l value with
              | Some existing => merger existing count
              | None => count
              end)
    end.
Proof.
  unfold mergeWith. revert l.
  induction r as [|[key count] rest IH]; intros l Hr; simpl; [done|].
  rewrite fmap_cons in Hr. apply NoDup_cons in Hr as [Hfresh Hr].
  rewrite IH by done. simpl. rewrite update_get.
  destruct (String.eqb_spec key value) as [->|Hne].
  - rewrite get_None_fresh by done. by rewrite decide_True.
  - by rewrite decide_False.
Qed.

Lemma mergeWith_occurrences (l r : list (string * Z)) (value : string) :
  NoDup r.*1 →
  occurrences (mergeWith Z.add l r) value
  = occurrences l value + occurrences r value.
Proof.
  intros Hr. unfold occurrences. rewrite mergeWith_get by done.
  destruct (get r value), (get l value); simpl; lia.
Qed.

Lemma mergeWith_is_Some (l r : list (string * Z)) (value : string) :
  NoDup r.*1 →
  is_Some (get (mergeWith Z.add l r) value)
  ↔ is_Some (get l value) ∨ is_Some (get r value).
Proof.
  intros Hr. rewrite mergeWith_get by done.
  destruct (get r value), (get l value); split; eauto;
    intros [[? ?]|[? ?]]; done.
Qed.

Lemma reduce_mergeWith (first : list (string * Z))
    (rest : list (list (string * Z))) :
  NoDup first.*1 → Forall (λ cases, NoDup cases.*1) rest →
  NoDup (fold_left (mergeWith Z.add) rest first).*1
  ∧ ∀ value,
      (is_Some (get (fold_left (mergeWith Z.add) rest first) value)
       ↔ Exists (λ cases, is_Some (get cases value)) (first :: rest))
      ∧ occurrences (fold_left (mergeWith Z.add) rest first) value
        = totalOccurrences (first :: rest) value.
Proof.
  intros Hfirst Hrest. revert first Hfirst.
  induction Hrest as [|r rest Hr _ IH]; intros first Hfirst; simpl.
  - split; [done|]. intros value. split; [|lia].
    rewrite Exists_cons, Exists_nil. tauto.
  - destruct (IH (mergeWith Z.add first r)) as [Hnd Hval];
      [by apply mergeWith_NoDup|].
    split; [done|]. intros value. destruct (Hval value) as [Hsome Hocc].
    split.
    + rewrite Hsome, !Exists_cons, mergeWith_is_Some by done. tauto.
    + rewrite Hocc. simpl. rewrite mergeWith_occurrences by done. lia.
Qed.

(** ** The property merger *)

Lemma enumOf_all_strings (allEnumCases : list (list (string * Z))) :
  forallb isStringType (enumOf <$> allEnumCases) = true
  ∧ forallb hasEnumCases (enumOf <$> allEnumCases) = true
  ∧ mapM (λ t, defined (enumCases t)) (enumOf <$> allEnumCases)
    = Ok allEnumCases.
Proof.
  induction allEnumCases as [|cases rest (Hs & He & Hm)]; [done|].
  rewrite fmap_cons. cbn [forallb mapM]. rewrite Hs, He, Hm. done.
Qed.

Lemma makePropertyType_mixed (names : TypeNames) (first : Ty)
    (rest : list Ty) (isNullable : bool) :
  isStringType first = true → forallb isStringType rest = false →
  makePropertyType names (first :: rest) isNullable
  = Thrown
      "Assertion failed: We can't combine strings with other types when combining classes".
Proof.
  intros Hfirst Hrest. unfold makePropertyType. simpl.
  by rewrite Hfirst, Hrest.
Qed.

(** ** Auxiliary facts about lists of cliques *)

Lemma elem_of_concat {A : Type} (x : A) (ls : list (list A)) :
  x ∈ concat ls ↔ ∃ l, l ∈ ls ∧ x ∈ l.
Proof.
  induction ls as [|l ls IH]; simpl.
  - split; [by intros ?%elem_of_nil|]. by intros (l & ?%elem_of_nil & _).
  - rewrite elem_of_app, IH. split.
    + intros [Hx|(l' & Hl' & Hx)]; [exists l|exists l']; split; try done;
        [by left|by right].
    + intros (l' & [->|Hl']%elem_of_cons & Hx); [by left|right; eauto].
Qed.

Lemma concat_NoDup_disjoint {A : Type} (ls : list (list A)) :
  NoDup (concat ls) →
  ∀ i j li lj x,
    i ≠ j → ls !! i = Some li → ls !! j = Some lj → x ∈ li → x ∉ lj.
Proof.
  induction ls as [|l ls IH]; intros Hnd i j li lj x Hij Hi Hj Hxi Hxj.
  - done.
  - simpl in Hnd. apply NoDup_app in Hnd as (_ & Hdisj & Hnd).
    destruct i as [|i], j as [|j]; simpl in *; try done.
    + injection Hi as <-. apply (Hdisj x Hxi).
      apply elem_of_concat. exists lj. split; [|done].
      by eapply list_elem_of_lookup_2.
    + injection Hj as <-. apply (Hdisj x Hxj).
      apply elem_of_concat. exists li. split; [|done].
      by eapply list_elem_of_lookup_2.
    + apply (IH Hnd i j li lj x); auto.
Qed.

Lemma cliqueBuilder_spec (classes : list ClassType) :
  ∃ cliques,
    cliqueBuilder classes = Ok cliques
    ∧ Forall (λ clique, (2 ≤ length clique)%nat ∧ admittedInTurn clique)
        cliques
    ∧ concat cliques ⊆+ classes.
Proof.
  destruct (buildCliques_spec (length classes) classes [])
    as (emitted & He & Hall & Hsub); [done|].
  by exists emitted.
Qed.

Lemma bind_Ok_l {A B : Type} (r : result A) (k : A → result B) :
  (r ≫= λ a, Ok a) ≫= k = r ≫= k.
Proof. by destruct r. Qed.

Lemma submseteq_NoDup {A : Type} (l k : list A) :
  l ⊆+ k → NoDup k → NoDup l.
Proof.
  intros (l' & Hp & Hs)%submseteq_sublist_r Hnd.
  rewrite Hp. by eapply sublist_NoDup.
Qed.


(** ** The order of the walk does not matter

    The entries of an Immutable.js map come in an order of its own; the
    outcome of [canBeCombined] after the walk is the same for every
    order of the entries of [smaller]. *)

Lemma checkCommon_Permutation smaller larger (names names' : list string) :
  names ≡ₚ names' →
  (∀ name, name ∈ names →
     is_Some (smaller !! name) ∧ is_Some (larger !! name)) →
  checkCommon smaller larger names = checkCommon smaller larger names'.
Proof.
  intros Hperm Hboth.
  destruct (checkCommon_spec smaller larger names Hboth) as (b & Hb & Hiff).
  destruct (checkCommon_spec smaller larger names') as (b' & Hb' & Hiff').
  { intros name Hin. apply Hboth. by rewrite Hperm. }
  rewrite Hb, Hb'. f_equal.
  assert (b = true ↔ b' = true) as Hbb.
  { rewrite Hiff, Hiff'. by setoid_rewrite Hperm. }
  destruct b, b'; try done; [by destruct Hbb as [-> _]|by destruct Hbb as [_ ->]].
Qed.

Lemma walk_order_irrelevant smaller larger maxFaults
    (entries : list (string * Ty)) :
  entries ≡ₚ map_to_list smaller →
  (let '(commonProperties, faults) :=
     walkSmaller larger maxFaults entries [] 0 in
   if faults >? maxFaults then Ok false
   else checkCommon smaller larger commonProperties)
  = (let '(commonProperties, faults) :=
       walkSmaller larger maxFaults (map_to_list smaller) [] 0 in
     if faults >? maxFaults then Ok false
     else checkCommon smaller larger commonProperties).
Proof.
  intros Hperm.
  assert (length (filter (λ e : string * Ty, has larger e.1 = false) entries)
          = absentFrom smaller larger) as Hcount
    by (rewrite Hperm; apply absent_entries_count).
  destruct (decide (Z.of_nat (absentFrom smaller larger) ≤ maxFaults))
    as [Hfew|Hmany].
  - rewrite !walkSmaller_within
      by (rewrite ?Hcount, ?absent_entries_count; lia).
    rewrite Hcount, absent_entries_count. simpl.
    destruct (0 + Z.of_nat (absentFrom smaller larger) >? maxFaults); [done|].
    apply checkCommon_Permutation; [by rewrite Hperm|].
    intros name Hin. apply common_entries.
    by rewrite <- Hperm.
  - pose proof (walkSmaller_exceeds larger maxFaults entries [] 0) as Hex.
    pose proof (walkSmaller_exceeds larger maxFaults (map_to_list smaller)
                  [] 0) as Hex0.
    rewrite Hcount in Hex. rewrite absent_entries_count in Hex0.
    destruct (walkSmaller larger maxFaults entries [] 0) as [c f].
    destruct (walkSmaller larger maxFaults (map_to_list smaller) [] 0)
      as [c0 f0].
    simpl in *.
    destruct (Z.gtb_spec f maxFaults); [|lia].
    destruct (Z.gtb_spec f0 maxFaults); [done|lia].
Qed.

(** ** The examples of the specification *)

Example overlap_gate_rejects :
  canBeCombined threeFields (classOf 10 [("x", integerType); ("y", integerType)])
  = Ok false.
Proof. by vm_compute. Qed.

Example gate_passes :
  minOverlapOf (properties fourFields) = 3
  ∧ maxFaultsOf (properties threeFields) (properties fourFields) = 0
  ∧ canBeCombined fourFields threeFields = Ok true
  ∧ canBeCombined threeFields fourFields = Ok true.
Proof. by vm_compute. Qed.

Example pinned_is_left_out :
  cliquesOf {| allNamedClasses := [fourFields; pinnedThreeFields] |} = Ok [].
Proof. by vm_compute. Qed.

(** * The claims *)

(** ** C1 *)




(** ** C2 *)

(** C2, as stated, fails: the set of the two classes 1 and 2 cannot be
    combined with itself, although the sizes agree and each member has
    itself as an equal counterpart of the same kind. *)
Lemma typeSetsCanBeCombined_not_any_counterpart :
  typeSetsCanBeCombined [ClassRef 1; ClassRef 2] [ClassRef 1; ClassRef 2]
  = false
  ∧ length [ClassRef 1; ClassRef 2] = length [ClassRef 1; ClassRef 2]
  ∧ ∀ t, t ∈ [ClassRef 1; ClassRef 2] →
      hasCounterpart t [ClassRef 1; ClassRef 2].
Proof.
  split; [by vm_compute|]. split; [done|].
  intros t Ht. exists t.
  split; [done|]. split; [done|]. left.
  apply elem_of_cons in Ht as [->|Ht]; [done|].
  apply list_elem_of_singleton in Ht as ->. done.
Qed.

(** C2, amended: [typeSetsCanBeCombined s1 s2] returns true if and only
    if [s1] and [s2] have equal size and, for every member [t] of [s1],
    the last member of [s2] of the kind of [t] exists and is equal to
    [t] or both are of kind string. *)
Theorem typeSetsCanBeCombined_iff (s1 s2 : list Ty) :
  typeSetsCanBeCombined s1 s2 = true
  ↔ length s1 = length s2
    ∧ ∀ t, t ∈ s1 →
        ∃ other, lastOfKind (kind t) s2 = Some other
                 ∧ (equals t other = true
                    ∨ (kind t = "string" ∧ kind other = "string")).
Proof. apply typeSetsCanBeCombined_spec. Qed.

(** When [s2] has one member of each kind, the statement of C2 holds as
    it is. *)
Lemma typeSetsCanBeCombined_one_of_each_kind (s1 s2 : list Ty) :
  oneOfEachKind s2 →
  typeSetsCanBeCombined s1 s2 = true
  ↔ length s1 = length s2 ∧ ∀ t, t ∈ s1 → hasCounterpart t s2.
Proof.
  intros Hone. rewrite typeSetsCanBeCombined_spec.
  split; intros [Hlen Hall]; (split; [done|]); intros t Ht.
  - destruct (Hall t Ht) as (other & Hlast & Hok).
    apply lastOfKind_Some in Hlast as [Hin Hk]. by exists other.
  - destruct (Hall t Ht) as (other & Hin & Hk & Hok).
    exists other. split; [|done].
    rewrite <- Hk. by apply lastOfKind_unique.
Qed.

(** ** C3 *)

(** C3: [canBeCombined] always returns a boolean, and it returns true
    if and only if the smaller map has at least 0.75 times the size of
    the larger one, the number of field names of the smaller map that
    the larger one lacks is at most [maxFaults], and on every common
    field with a non-null member on both sides the two sets of non-null
    members pass [typeSetsCanBeCombined]. *)
Theorem canBeCombined_iff (c1 c2 : ClassType) :
  (∃ b, canBeCombined c1 c2 = Ok b)
  ∧ (canBeCombined c1 c2 = Ok true
     ↔ (overlapOf (size (largerOf (properties c1) (properties c2)))
        <= inject_Z
             (Z.of_nat (size (smallerOf (properties c1) (properties c2)))))%Q
       ∧ Z.of_nat
           (absentFrom (smallerOf (properties c1) (properties c2))
              (largerOf (properties c1) (properties c2)))
         ≤ Z.of_nat (size (smallerOf (properties c1) (properties c2)))
           - Qceiling
               (overlapOf (size (largerOf (properties c1) (properties c2))))
       ∧ commonFieldsAgree (smallerOf (properties c1) (properties c2))
           (largerOf (properties c1) (properties c2))).
Proof.
  destruct (canBeCombined_spec c1 c2) as (b & Hb & Hiff).
  split; [by exists b|].
  rewrite Hb. unfold maxFaultsOf, minOverlapOf in Hiff.
  rewrite <- Hiff. split; congruence.
Qed.

(** ** C4 *)

(** C4: when the sizes pass the gate, [maxFaults] is not negative and
    the assertion on it holds; [canBeCombined] returns a boolean for
    every pair of classes, so the assertion never fires. *)
Theorem maxFaults_nonnegative (c1 c2 : ClassType) :
  (overlapOf (size (largerOf (properties c1) (properties c2)))
   <= inject_Z
        (Z.of_nat (size (smallerOf (properties c1) (properties c2)))))%Q →
  0 ≤ maxFaultsOf (smallerOf (properties c1) (properties c2))
        (largerOf (properties c1) (properties c2))
  ∧ assert
      (maxFaultsOf (smallerOf (properties c1) (properties c2))
         (largerOf (properties c1) (properties c2)) >=? 0)
      "Max faults negative"
    = Ok tt
  ∧ ∃ b, canBeCombined c1 c2 = Ok b.
Proof.
  intros Hgate. apply minOverlap_le in Hgate.
  assert (0 ≤ maxFaultsOf (smallerOf (properties c1) (properties c2))
                (largerOf (properties c1) (properties c2))) as Hnonneg
    by (unfold maxFaultsOf, minOverlapOf; lia).
  split; [done|]. split; [|apply canBeCombined_total].
  unfold assert.
  by destruct (Z.geb_spec
                 (maxFaultsOf (smallerOf (properties c1) (properties c2))
                    (largerOf (properties c1) (properties c2))) 0);
    [|lia].
Qed.

Lemma maxFaults_nonnegative_witness :
  (overlapOf
     (size (largerOf (properties fourFields) (properties threeFields)))
   <= inject_Z
        (Z.of_nat
           (size (smallerOf (properties fourFields)
                    (properties threeFields)))))%Q
  ∧ maxFaultsOf (smallerOf (properties fourFields) (properties threeFields))
      (largerOf (properties fourFields) (properties threeFields)) = 0
  ∧ 0 ≤ maxFaultsOf
          (smallerOf (properties fourFields) (properties threeFields))
          (largerOf (properties fourFields) (properties threeFields)).
Proof.
  assert ((overlapOf
             (size (largerOf (properties fourFields)
                      (properties threeFields)))
           <= inject_Z
                (Z.of_nat
                   (size (smallerOf (properties fourFields)
                            (properties threeFields)))))%Q) as Hgate
    by (vm_compute; discriminate).
  split; [done|]. split; [by vm_compute|].
  apply (maxFaults_nonnegative fourFields threeFields Hgate).
Defined.

(** ** C5 *)



(** ** C6 *)

(** C6: the cliques that [combineClasses] computes from a graph never
    hold a class whose [isFixed] flag is set. *)
Theorem pinned_never_in_clique (graph : TypeGraph) :
  ∃ cliques,
    cliquesOf graph = Ok cliques
    ∧ ∀ c, isFixed c = true → ∀ clique, clique ∈ cliques → c ∉ clique.
Proof.
  unfold cliquesOf.
  destruct (cliqueBuilder_spec
              (filter (λ c, isFixed c = false) (allNamedClasses graph)))
    as (cliques & Hc & _ & Hsub).
  exists cliques. split; [done|]. intros c Hfixed clique Hclique Hin.
  assert (c ∈ concat cliques) as Hcat
    by (apply elem_of_concat; by exists clique).
  apply (elem_of_submseteq _ _ _ Hcat) in Hsub.
  apply list_elem_of_filter in Hsub as [Hfree _]. congruence.
Qed.

(** ** C7 *)

(** C7: for a type set made of string types that all carry a histogram
    (each with its values listed once), the merged type is the one
    string type whose histogram has the values of all the histograms,
    each with the sum of its occurrence counts; it is made nullable when
    [isNullable] is set. *)
Theorem makePropertyType_enums (names : TypeNames)
    (first : list (string * Z)) (rest : list (list (string * Z)))
    (isNullable : bool) :
  Forall (λ cases, NoDup cases.*1) (first :: rest) →
  ∃ mergedCases,
    makePropertyType names (enumOf <$> first :: rest) isNullable
    = Ok (if isNullable
          then makeNullable (getStringType names (Some mergedCases)) names
          else getStringType names (Some mergedCases))
    ∧ NoDup mergedCases.*1
    ∧ ∀ value,
        (is_Some (get mergedCases value)
         ↔ Exists (λ cases, is_Some (get cases value)) (first :: rest))
        ∧ occurrences mergedCases value
          = totalOccurrences (first :: rest) value.
Proof.
  intros Hnd. apply Forall_cons in Hnd as [Hfirst Hrest].
  exists (fold_left (mergeWith Z.add) rest first).
  split; [|by apply reduce_mergeWith].
  destruct (enumOf_all_strings (first :: rest)) as (Hs & He & Hm).
  unfold makePropertyType. rewrite fmap_cons in *.
  cbn [isStringType enumOf]. rewrite Hs, He. cbn [assert mbind result_bind].
  rewrite Hm. by destruct isNullable.
Qed.

Lemma makePropertyType_enums_witness :
  Forall (λ cases : list (string * Z), NoDup cases.*1)
    [[("red", 2)]; [("blue", 5); ("red", 1)]]
  ∧ makePropertyType ["color"]
      [enumOf [("red", 2)]; enumOf [("blue", 5); ("red", 1)]] false
    = Ok (getStringType ["color"] (Some [("red", 3); ("blue", 5)]))
  ∧ ∃ mergedCases,
      makePropertyType ["color"]
        (enumOf <$> [[("red", 2)]; [("blue", 5); ("red", 1)]]) false
      = Ok (getStringType ["color"] (Some mergedCases))
      ∧ NoDup mergedCases.*1
      ∧ ∀ value,
          (is_Some (get mergedCases value)
           ↔ Exists (λ cases, is_Some (get cases value))
               [[("red", 2)]; [("blue", 5); ("red", 1)]])
          ∧ occurrences mergedCases value
            = totalOccurrences [[("red", 2)]; [("blue", 5); ("red", 1)]]
                value.
Proof.
  assert (Forall (λ cases : list (string * Z), NoDup cases.*1)
            [[("red", 2)]; [("blue", 5); ("red", 1)]]) as Hnd
    by compute_done.
  split; [done|]. split; [by vm_compute|].
  apply (makePropertyType_enums ["color"] [("red", 2)]
           [[("blue", 5); ("red", 1)]] false Hnd).
Defined.

(** ** C8 *)

(** C8: for the empty type set the merged type is the null primitive,
    and with [isNullable] set the merged type is the type merged without
    the flag, made nullable with the names of the field. *)
Theorem makePropertyType_null_nullable (names : TypeNames)
    (types : list Ty) :
  makePropertyType names [] false = Ok (getPrimitiveType "null")
  ∧ makePropertyType names [] true
    = Ok (makeNullable (getPrimitiveType "null") names)
  ∧ makePropertyType names types true
    = (resultType ← makePropertyType names types false;
       Ok (makeNullable resultType names)).
Proof.
  split; [done|]. split; [done|].
  unfold makePropertyType. symmetry. apply bind_Ok_l.
Qed.

(** ** C10 *)

(** C10: from a list of distinct classes the builder emits cliques
    whose members all come from the list, no class twice among them:
    two different cliques share no member. *)
Theorem cliques_disjoint (classes : list ClassType) :
  NoDup classes →
  ∃ cliques,
    cliqueBuilder classes = Ok cliques
    ∧ (∀ clique c, clique ∈ cliques → c ∈ clique → c ∈ classes)
    ∧ NoDup (concat cliques)
    ∧ ∀ i j qi qj c,
        i ≠ j → cliques !! i = Some qi → cliques !! j = Some qj →
        c ∈ qi → c ∉ qj.
Proof.
  intros Hnd.
  destruct (cliqueBuilder_spec classes) as (cliques & Hc & _ & Hsub).
  exists cliques. split; [done|].
  pose proof (submseteq_NoDup _ _ Hsub Hnd) as Hcat.
  split; [|split; [done|by apply concat_NoDup_disjoint]].
  intros clique c Hclique Hin.
  apply (elem_of_submseteq (concat cliques)); [|done].
  apply elem_of_concat. by exists clique.
Qed.

Lemma cliques_disjoint_witness :
  NoDup [fourFields; stringField; threeFields; nullField]
  ∧ cliqueBuilder [fourFields; stringField; threeFields; nullField]
    = Ok [[fourFields; threeFields]; [stringField; nullField]]
  ∧ ∃ cliques,
      cliqueBuilder [fourFields; stringField; threeFields; nullField]
      = Ok cliques
      ∧ (∀ clique c, clique ∈ cliques → c ∈ clique →
           c ∈ [fourFields; stringField; threeFields; nullField])
      ∧ NoDup (concat cliques)
      ∧ ∀ i j qi qj c,
          i ≠ j → cliques !! i = Some qi → cliques !! j = Some qj →
          c ∈ qi → c ∉ qj.
Proof.
  assert (NoDup [fourFields; stringField; threeFields; nullField]) as Hnd
    by (apply (NoDup_fmap_1 typeRef); compute_done).
  split; [done|]. split; [by vm_compute|].
  apply (cliques_disjoint
           [fourFields; stringField; threeFields; nullField] Hnd).
Defined.

(** * Lemmas for the further properties *)

(** ** Equality of types *)

Lemma membersEqual_refl (eqb : Ty → Ty → bool) (l : list Ty) :
  Forall (λ t, eqb t t = true) l → membersEqual eqb l l = true.
Proof. induction 1 as [|x l Hx _ IH]; simpl; [done|]. by rewrite Hx, IH. Qed.

Lemma equals_refl (t : Ty) : equals t t = true.
Proof.
  induction t as [p|e|r|t IH|t IH|ms IH] using Ty_nested_ind; simpl;
    try done.
  - by destruct p.
  - unfold enumCases_eqb. by apply bool_decide_eq_true.
  - apply Nat.eqb_refl.
  - by apply membersEqual_refl.
Qed.

Lemma membersEqual_eq (eqb : Ty → Ty → bool) (l1 : list Ty) :
  Forall (λ t, ∀ u, eqb t u = true → t = u) l1 →
  ∀ l2, membersEqual eqb l1 l2 = true → l1 = l2.
Proof.
  induction 1 as [|x l1 Hx _ IH]; intros [|y l2]; simpl; try done.
  intros [Hxy Hl]%andb_true_iff. f_equal; auto.
Qed.

Lemma equals_eq (t u : Ty) : equals t u = true → t = u.
Proof.
  revert u. induction t as [p|e|r|t IH|t IH|ms IH] using Ty_nested_ind;
    intros [q|e'|r'|u|u|ms']; simpl; try done.
  - by destruct p, q.
  - unfold enumCases_eqb. by intros ->%bool_decide_eq_true.
  - by intros ->%Nat.eqb_eq.
  - by intros ->%IH.
  - by intros ->%IH.
  - by intros ->%(membersEqual_eq _ _ IH).
Qed.

(** ** Type sets *)

Lemma typeSetsCanBeCombined_single (t u : Ty) :
  typeSetsCanBeCombined [t] [u]
  = bool_decide (kind t = kind u)
    && (equals t u || bool_decide (kind t = "string")).
Proof.
  unfold typeSetsCanBeCombined, byKind. simpl.
  destruct (decide (kind t = kind u)) as [Hk|Hk].
  - rewrite bool_decide_eq_true_2 by done.
    rewrite <- Hk, lookup_insert_eq. simpl.
    destruct (equals t u); [done|]. simpl.
    destruct (String.eqb_spec (kind t) "string") as [Hs|Hs].
    + by rewrite bool_decide_eq_true_2.
    + by rewrite bool_decide_eq_false_2.
  - rewrite bool_decide_eq_false_2 by done.
    by rewrite lookup_insert_ne, lookup_empty.
Qed.

Lemma typeSetsCanBeCombined_refl (s : list Ty) :
  oneOfEachKind s → typeSetsCanBeCombined s s = true.
Proof.
  intros Hone. apply typeSetsCanBeCombined_spec. split; [done|].
  intros t Ht. exists t. split; [by apply lastOfKind_unique|].
  left. apply equals_refl.
Qed.

(** ** The predicate *)

Lemma canBeCombined_Ok_true (c1 c2 : ClassType) :
  canBeCombined c1 c2 = Ok true
  ↔ (overlapOf (size (largerOf (properties c1) (properties c2)))
     <= inject_Z
          (Z.of_nat (size (smallerOf (properties c1) (properties c2)))))%Q
    ∧ Z.of_nat
        (absentFrom (smallerOf (properties c1) (properties c2))
           (largerOf (properties c1) (properties c2)))
      ≤ maxFaultsOf (smallerOf (properties c1) (properties c2))
          (largerOf (properties c1) (properties c2))
    ∧ commonFieldsAgree (smallerOf (properties c1) (properties c2))
        (largerOf (properties c1) (properties c2)).
Proof.
  destruct (canBeCombined_spec c1 c2) as (b & Hb & Hiff).
  rewrite Hb, <- Hiff. split; congruence.
Qed.

Lemma canBeCombined_not_true (c1 c2 : ClassType) :
  canBeCombined c1 c2 ≠ Ok true → canBeCombined c1 c2 = Ok false.
Proof. destruct (canBeCombined_total c1 c2) as [[] ->]; done. Qed.

Lemma largerOf_self (p : gmap string Ty) : largerOf p p = p.
Proof. unfold largerOf. by rewrite Nat.ltb_irrefl. Qed.

Lemma smallerOf_self (p : gmap string Ty) : smallerOf p p = p.
Proof. unfold smallerOf. by rewrite Nat.ltb_irrefl. Qed.

Lemma size_larger (p1 p2 : gmap string Ty) :
  size (largerOf p1 p2) = Nat.max (size p1) (size p2).
Proof. unfold largerOf. destruct (Nat.ltb_spec (size p2) (size p1)); lia. Qed.

Lemma size_smaller (p1 p2 : gmap string Ty) :
  size (smallerOf p1 p2) = Nat.min (size p1) (size p2).
Proof. unfold smallerOf. destruct (Nat.ltb_spec (size p2) (size p1)); lia. Qed.

Lemma common_larger_smaller (p1 p2 : gmap string Ty) :
  dom (smallerOf p1 p2) ∩ dom (largerOf p1 p2) = dom p1 ∩ dom p2.
Proof.
  unfold smallerOf, largerOf.
  destruct (size p2 <? size p1)%nat; [apply (comm_L (∩))|done].
Qed.

Lemma size_common (smaller larger : gmap string Ty) :
  size (dom smaller ∩ dom larger) = (size smaller - absentFrom smaller larger)%nat.
Proof.
  unfold absentFrom.
  pose proof (size_difference_alt (dom smaller) (dom larger)) as Hdiff.
  pose proof (subseteq_size (dom smaller ∩ dom larger) (dom smaller)) as Hsub.
  pose proof (size_dom (D:=gset string) smaller) as Hdom.
  assert (dom smaller ∩ dom larger ⊆ dom smaller) as Hincl by set_solver.
  specialize (Hsub Hincl). lia.
Qed.

Lemma canBeCombined_refl_aux (c : ClassType) :
  fieldsOneOfEachKind c → canBeCombined c c = Ok true.
Proof.
  intros Hone. apply canBeCombined_Ok_true.
  rewrite largerOf_self, smallerOf_self.
  assert ((overlapOf (size (properties c))
           <= inject_Z (Z.of_nat (size (properties c))))%Q) as Hgate
    by (apply overlapOf_le; lia).
  split; [done|]. split.
  - unfold absentFrom.
    replace (dom (properties c) ∖ dom (properties c))
      with (∅ : gset string) by set_solver.
    rewrite size_empty. apply minOverlap_le in Hgate.
    unfold maxFaultsOf, minOverlapOf. lia.
  - intros name ts tl Hs Hl _ _. rewrite Hs in Hl. injection Hl as <-.
    apply typeSetsCanBeCombined_refl. by apply (Hone name).
Qed.

Lemma canBeCombined_self_rejected_aux (c : ClassType) (name : string)
    (t u v : Ty) :
  properties c !! name = Some t →
  u ∈ nonNullTypeCases t → v ∈ nonNullTypeCases t →
  kind u = kind v → kind u ≠ "string" → u ≠ v →
  canBeCombined c c = Ok false.
Proof.
  intros Ht Hu Hv Hk Hstr Hne. apply canBeCombined_not_true.
  rewrite canBeCombined_Ok_true, largerOf_self, smallerOf_self.
  intros (_ & _ & Hagree).
  assert (nonNullTypeCases t ≠ []) as Hnonempty
    by (intros Hnil; rewrite Hnil in Hu; by apply elem_of_nil in Hu).
  specialize (Hagree name t t Ht Ht Hnonempty Hnonempty).
  apply typeSetsCanBeCombined_spec in Hagree as [_ Hall].
  destruct (Hall u Hu) as (o & Hlast & [Heq|[Hs _]]); [|done].
  destruct (Hall v Hv) as (o' & Hlast' & [Heq'|[Hs' _]]); [|congruence].
  rewrite <- Hk, Hlast in Hlast'. injection Hlast' as <-.
  apply equals_eq in Heq, Heq'. congruence.
Qed.

Lemma canBeCombined_empty_aux (c1 c2 : ClassType) :
  properties c1 = ∅ →
  (canBeCombined c1 c2 = Ok true ↔ properties c2 = ∅)
  ∧ (canBeCombined c2 c1 = Ok true ↔ properties c2 = ∅).
Proof.
  intros Hempty.
  assert (∀ c, properties c = ∅ → fieldsOneOfEachKind c) as Hone.
  { intros c Hc. unfold fieldsOneOfEachKind. rewrite Hc.
    apply map_Forall_empty. }
  assert (∀ a b, properties a = ∅ → properties b = ∅ →
                 canBeCombined a b = Ok true) as Hboth.
  { intros a b Ha Hb. apply canBeCombined_Ok_true.
    rewrite Ha, Hb. unfold largerOf, smallerOf.
    rewrite map_size_empty. simpl.
    split; [by vm_compute|]. split; [by vm_compute|].
    intros name ts tl Hs. by rewrite lookup_empty in Hs. }
  assert (∀ a b, properties a = ∅ ∨ properties b = ∅ →
                 canBeCombined a b = Ok true →
                 size (properties a) = size (properties b)) as Hsize.
  { intros a b Hab [Hgate _]%canBeCombined_Ok_true.
    apply overlapOf_le in Hgate.
    rewrite size_larger, size_smaller in Hgate.
    destruct Hab as [Ha|Hb]; [rewrite Ha in *|rewrite Hb in *];
      rewrite map_size_empty in *; lia. }
  split; split.
  - intros Htrue. apply map_size_empty_inv.
    rewrite <- (Hsize c1 c2) by auto. by rewrite Hempty, map_size_empty.
  - intros H2. by apply Hboth.
  - intros Htrue. apply map_size_empty_inv.
    rewrite (Hsize c2 c1) by auto. by rewrite Hempty, map_size_empty.
  - intros H2. by apply Hboth.
Qed.

Lemma canBeCombined_overlap_aux (c1 c2 : ClassType) :
  canBeCombined c1 c2 = Ok true →
  (3 * Z.of_nat (Nat.max (size (properties c1)) (size (properties c2))) + 3)
    / 4
  ≤ Z.of_nat (size (dom (properties c1) ∩ dom (properties c2))).
Proof.
  intros (Hgate & Hfaults & _)%canBeCombined_Ok_true.
  rewrite <- common_larger_smaller, size_common.
  unfold maxFaultsOf in Hfaults. rewrite minOverlapOf_integer in Hfaults.
  rewrite size_larger in Hfaults. lia.
Qed.

Lemma canBeCombined_small_aux (c1 c2 : ClassType) :
  (size (properties c1) ≤ 3)%nat → (size (properties c2) ≤ 3)%nat →
  canBeCombined c1 c2 = Ok true →
  dom (properties c1) = dom (properties c2).
Proof.
  intros H1 H2 Hover%canBeCombined_overlap_aux.
  assert (Z.of_nat (Nat.max (size (properties c1)) (size (properties c2)))
          ≤ Z.of_nat (size (dom (properties c1) ∩ dom (properties c2))))
    as Hmax.
  { etrans; [|exact Hover].
    generalize (Nat.max (size (properties c1)) (size (properties c2))),
      (Nat.max_lub _ _ _ H1 H2).
    intros n Hn.
    assert (n = 0 ∨ n = 1 ∨ n = 2 ∨ n = 3)%nat as Hcases by lia.
    destruct Hcases as [Hn0|[Hn0|[Hn0|Hn0]]]; subst n; by vm_compute. }
  assert (dom (properties c1) ∩ dom (properties c2) = dom (properties c1))
    as Hleft.
  { apply set_subseteq_size_eq; [set_solver|]. rewrite size_dom. lia. }
  assert (dom (properties c1) ∩ dom (properties c2) = dom (properties c2))
    as Hright.
  { apply set_subseteq_size_eq; [set_solver|]. rewrite size_dom. lia. }
  congruence.
Qed.

Lemma sameNonNullCases_sym (p p' : gmap string Ty) :
  sameNonNullCases p p' → sameNonNullCases p' p.
Proof. intros H name. by rewrite H. Qed.

Lemma sameNonNullCases_dom (p p' : gmap string Ty) :
  sameNonNullCases p p' → dom p = dom p'.
Proof.
  intros H. apply set_eq. intros name. rewrite !elem_of_dom.
  specialize (H name).
  destruct (p !! name), (p' !! name); simpl in H; try done;
    split; intros [? ?]; done.
Qed.

Lemma sameNonNullCases_size (p p' : gmap string Ty) :
  sameNonNullCases p p' → size p = size p'.
Proof.
  intros H%sameNonNullCases_dom.
  by rewrite <- (size_dom (D:=gset string) p), H, size_dom.
Qed.

Lemma sameNonNullCases_lookup (p p' : gmap string Ty) (name : string)
    (t' : Ty) :
  sameNonNullCases p p' → p' !! name = Some t' →
  ∃ t, p !! name = Some t ∧ nonNullTypeCases t = nonNullTypeCases t'.
Proof.
  intros H Ht'. specialize (H name). rewrite Ht' in H.
  destruct (p !! name) as [t|]; simpl in H; [|done].
  exists t. split; [done|congruence].
Qed.

Lemma conditions_sameNonNullCases (s l s' l' : gmap string Ty) :
  sameNonNullCases s s' → sameNonNullCases l l' →
  (overlapOf (size l) <= inject_Z (Z.of_nat (size s)))%Q
  ∧ Z.of_nat (absentFrom s l) ≤ maxFaultsOf s l
  ∧ commonFieldsAgree s l →
  (overlapOf (size l') <= inject_Z (Z.of_nat (size s')))%Q
  ∧ Z.of_nat (absentFrom s' l') ≤ maxFaultsOf s' l'
  ∧ commonFieldsAgree s' l'.
Proof.
  intros Hs Hl (Hgate & Hfaults & Hagree).
  unfold absentFrom, maxFaultsOf, minOverlapOf in *.
  rewrite <- (sameNonNullCases_size _ _ Hs), <- (sameNonNullCases_size _ _ Hl).
  rewrite <- (sameNonNullCases_dom _ _ Hs), <- (sameNonNullCases_dom _ _ Hl).
  split; [done|]. split; [done|].
  intros name ts' tl' Hts' Htl'.
  destruct (sameNonNullCases_lookup _ _ _ _ Hs Hts') as (ts & Hts & <-).
  destruct (sameNonNullCases_lookup _ _ _ _ Hl Htl') as (tl & Htl & <-).
  by apply (Hagree name).
Qed.

Lemma canBeCombined_sameNonNullCases_true (c1 c1' c2 c2' : ClassType) :
  sameNonNullCases (properties c1) (properties c1') →
  sameNonNullCases (properties c2) (properties c2') →
  canBeCombined c1 c2 = Ok true → canBeCombined c1' c2' = Ok true.
Proof.
  intros H1 H2. rewrite !canBeCombined_Ok_true.
  unfold largerOf, smallerOf.
  rewrite <- (sameNonNullCases_size _ _ H1), <- (sameNonNullCases_size _ _ H2).
  destruct (size (properties c2) <? size (properties c1))%nat;
    by apply conditions_sameNonNullCases.
Qed.

Lemma canBeCombined_sameNonNullCases_aux (c1 c1' c2 c2' : ClassType) :
  sameNonNullCases (properties c1) (properties c1') →
  sameNonNullCases (properties c2) (properties c2') →
  canBeCombined c1 c2 = canBeCombined c1' c2'.
Proof.
  intros H1 H2.
  destruct (canBeCombined_total c1 c2) as [[] Hb];
    destruct (canBeCombined_total c1' c2') as [[] Hb']; try congruence.
  - apply (canBeCombined_sameNonNullCases_true c1 c1' c2 c2') in Hb;
      [congruence|done..].
  - apply (canBeCombined_sameNonNullCases_true c1' c1 c2' c2) in Hb';
      [congruence|by apply sameNonNullCases_sym..].
Qed.

(** ** Membership in a clique *)

Lemma isPartOfClique_false (c : ClassType) (clique : list ClassType) :
  isPartOfClique c clique = Ok false →
  ∃ cc, cc ∈ clique ∧ canBeCombined c cc = Ok false.
Proof.
  induction clique as [|cc rest IH]; simpl; [done|].
  destruct (canBeCombined_total c cc) as [[] Hcc]; rewrite Hcc; simpl.
  - intros (x & Hx & Hfalse)%IH. exists x. split; [by right|done].
  - intros _. exists cc. split; [by left|done].
Qed.

(** ** The rounds of the clique builder *)

Lemma sweep_greedy (candidates clique classesLeft : list ClassType) :
  ∃ added rejected,
    sweep candidates clique classesLeft
    = Ok (clique ++ added, classesLeft ++ rejected)
    ∧ added `sublist_of` candidates
    ∧ rejected `sublist_of` candidates
    ∧ candidates ≡ₚ added ++ rejected
    ∧ (∀ r, r ∈ rejected →
         ∃ cc, cc ∈ clique ++ added ∧ canBeCombined r cc = Ok false)
    ∧ (∀ a, a ∈ added →
         ∀ cc, cc ∈ clique → canBeCombined a cc = Ok true).
Proof.
  revert clique classesLeft.
  induction candidates as [|c rest IH]; intros clique classesLeft; simpl.
  - exists [], []. rewrite !app_nil_r. repeat split; try done.
    + intros r Hr. by apply elem_of_nil in Hr.
    + intros a Ha. by apply elem_of_nil in Ha.
  - destruct (isPartOfClique_spec c clique) as ([] & Hb & Hiff);
      rewrite Hb; simpl.
    + destruct (IH (clique ++ [c]) classesLeft)
        as (added & rejected & Hs & Ha & Hr & Hp & Hrej & Hadm).
      exists (c :: added), rejected.
      rewrite <- !app_assoc in *. simpl in *.
      split; [done|]. split; [by apply sublist_skip|].
      split; [by apply sublist_cons|]. split; [by rewrite Hp|].
      split; [done|].
      intros a [->|Hin]%elem_of_cons cc Hcc.
      * by apply Hiff.
      * apply (Hadm a Hin). apply elem_of_app. by left.
    + destruct (IH clique (classesLeft ++ [c]))
        as (added & rejected & Hs & Ha & Hr & Hp & Hrej & Hadm).
      exists added, (c :: rejected).
      rewrite <- !app_assoc in *. simpl in *.
      split; [done|]. split; [by apply sublist_cons|].
      split; [by apply sublist_skip|].
      split; [rewrite Hp; apply Permutation_middle|].
      split; [|done].
      intros r [->|Hin]%elem_of_cons; [|by apply Hrej].
      destruct (isPartOfClique_false c clique Hb) as (cc & Hcc & Hfalse).
      exists cc. split; [|done]. apply elem_of_app. by left.
Qed.

Lemma sweep_all_admitted (candidates clique classesLeft : list ClassType) :
  admittedInTurn (clique ++ candidates) →
  sweep candidates clique classesLeft
  = Ok (clique ++ candidates, classesLeft).
Proof.
  revert clique. induction candidates as [|c rest IH]; intros clique Hturn;
    simpl.
  - by rewrite app_nil_r.
  - destruct (isPartOfClique_spec c clique) as (b & Hb & Hiff).
    assert (b = true) as ->.
    { apply Hiff. intros cc Hcc.
      apply list_elem_of_lookup in Hcc as [i Hi].
      apply (Hturn i (length clique)).
      - by apply lookup_lt_Some in Hi.
      - by rewrite lookup_app_l by (by apply lookup_lt_Some in Hi).
      - by rewrite list_lookup_middle. }
    rewrite Hb. simpl. rewrite IH; rewrite <- app_assoc; done.
Qed.

Lemma buildCliques_greedy (fuel : nat) :
  ∀ unprocessedClasses cliques,
    (length unprocessedClasses ≤ fuel)%nat →
    ∃ emitted,
      buildCliques fuel unprocessedClasses cliques = Ok (cliques ++ emitted)
      ∧ Forall (λ clique, clique `sublist_of` unprocessedClasses) emitted
      ∧ laterRejected emitted.
Proof.
  induction fuel as [|fuel IH]; intros [|seed candidates] cliques Hfuel;
    simpl in *; try lia.
  - exists []. rewrite app_nil_r. repeat split; [done|].
    intros i j qi qj r _ Hi. by rewrite lookup_nil in Hi.
  - exists []. rewrite app_nil_r. repeat split; [done|].
    intros i j qi qj r _ Hi. by rewrite lookup_nil in Hi.
  - destruct (sweep_greedy candidates [seed] [])
      as (added & rejected & Hs & Ha & Hr & Hp & Hrej & _).
    rewrite Hs. simpl.
    assert (length rejected ≤ fuel)%nat as Hlen.
    { apply sublist_length in Hr. lia. }
    assert (∀ emitted,
              Forall (λ clique, clique `sublist_of` rejected) emitted →
              Forall (λ clique, clique `sublist_of` seed :: candidates)
                emitted) as Hlift.
    { intros emitted Hall. eapply Forall_impl; [exact Hall|].
      intros q Hq. apply sublist_cons. by trans rejected. }
    destruct added as [|c added]; simpl.
    + destruct (IH rejected cliques Hlen) as (emitted & He & Hsub & Hlater).
      exists emitted. split; [done|]. split; [by apply Hlift|done].
    + destruct (IH rejected (cliques ++ [seed :: c :: added]) Hlen)
        as (emitted & He & Hsub & Hlater).
      exists ((seed :: c :: added) :: emitted).
      rewrite <- app_assoc in He. split; [done|]. split.
      * constructor; [by apply sublist_skip|by apply Hlift].
      * intros i j qi qj r Hlt Hi Hj Hin.
        destruct j as [|j]; [lia|]. simpl in Hj.
        destruct i as [|i]; simpl in Hi.
        -- injection Hi as <-. apply Hrej.
           rewrite Forall_forall in Hsub.
           eapply elem_of_sublist; [exact Hin|].
           apply Hsub. by eapply list_elem_of_lookup_2.
        -- apply (Hlater i j qi qj r); [lia|done..].
Qed.

Lemma cliqueBuilder_greedy (classes : list ClassType) :
  ∃ cliques,
    cliqueBuilder classes = Ok cliques
    ∧ Forall (λ clique, clique `sublist_of` classes) cliques
    ∧ laterRejected cliques.
Proof.
  destruct (buildCliques_greedy (length classes) classes [])
    as (emitted & He & Hsub & Hlater); [done|].
  by exists emitted.
Qed.

Lemma concat_length_pairs {A : Type} (ls : list (list A)) :
  Forall (λ l, (2 ≤ length l)%nat) ls →
  (2 * length ls ≤ length (concat ls))%nat.
Proof.
  induction 1 as [|l ls Hl _ IH]; simpl; [done|].
  rewrite length_app. lia.
Qed.

Lemma concat_NoDup_member {A : Type} (ls : list (list A)) (l : list A) :
  NoDup (concat ls) → l ∈ ls → NoDup l.
Proof.
  induction ls as [|l' ls IH]; simpl; intros Hnd Hin.
  - by apply elem_of_nil in Hin.
  - apply NoDup_app in Hnd as (Hl' & _ & Hls).
    apply elem_of_cons in Hin as [->|Hin]; auto.
Qed.

(** ** The outcomes of the property merger *)

Lemma mapM_defined_enumCases (types : list Ty) :
  forallb hasEnumCases types = true →
  ∃ allEnumCases,
    mapM (λ t, defined (enumCases t)) types = Ok allEnumCases
    ∧ length allEnumCases = length types.
Proof.
  induction types as [|t rest IH]; simpl; [by exists []|].
  intros [Ht Hrest]%andb_true_iff.
  destruct (IH Hrest) as (cases & Hm & Hlen).
  unfold hasEnumCases in Ht. destruct (enumCases t) as [h|]; [|done].
  simpl. rewrite Hm. simpl. exists (h :: cases). by rewrite <- Hlen.
Qed.

Lemma makePropertyType_outcome_aux (names : TypeNames) (types : list Ty)
    (isNullable : bool) :
  if match types with
     | first :: _ => isStringType first && negb (forallb isStringType types)
     | [] => false
     end
  then makePropertyType names types isNullable
       = Thrown
           "Assertion failed: We can't combine strings with other types when combining classes"
  else ∃ tref, makePropertyType names types isNullable = Ok tref.
Proof.
  unfold makePropertyType. destruct types as [|first rest].
  { simpl. by eexists. }
  destruct (isStringType first) eqn:Hfirst; [|simpl; by eexists].
  destruct (forallb isStringType (first :: rest)) eqn:Hall;
    cbn [andb negb assert mbind result_bind]; [|done].
  destruct (forallb hasEnumCases (first :: rest)) eqn:Henum;
    [|simpl; by eexists].
  destruct (mapM_defined_enumCases (first :: rest) Henum)
    as (cases & Hm & Hlen).
  rewrite Hm. destruct cases as [|h hs]; [done|]. simpl. by eexists.
Qed.

Lemma totalCount_update (cases : list (string * Z)) (key : string)
    (count : Z) :
  totalCount (update Z.add cases key count) = totalCount cases + count.
Proof.
  induction cases as [|[k c] rest IH]; simpl; [lia|].
  destruct (String.eqb k key); simpl; lia.
Qed.

Lemma totalCount_mergeWith (l r : list (string * Z)) :
  totalCount (mergeWith Z.add l r) = totalCount l + totalCount r.
Proof.
  unfold mergeWith. revert l.
  induction r as [|[key count] rest IH]; intros l; simpl; [lia|].
  rewrite IH, totalCount_update. lia.
Qed.

Lemma totalCount_reduce (first : list (string * Z))
    (rest : list (list (string * Z))) :
  totalCount (fold_left (mergeWith Z.add) rest first)
  = foldr (λ cases total, totalCount cases + total) 0 (first :: rest).
Proof.
  revert first. induction rest as [|r rest IH]; intros first; simpl.
  - lia.
  - rewrite IH. simpl. rewrite totalCount_mergeWith. lia.
Qed.

Lemma makePropertyType_enums_merged (names : TypeNames)
    (first : list (string * Z)) (rest : list (list (string * Z)))
    (isNullable : bool) :
  makePropertyType names (enumOf <$> first :: rest) isNullable
  = Ok (if isNullable
        then makeNullable
               (getStringType names
                  (Some (fold_left (mergeWith Z.add) rest first))) names
        else getStringType names
               (Some (fold_left (mergeWith Z.add) rest first))).
Proof.
  destruct (enumOf_all_strings (first :: rest)) as (Hs & He & Hm).
  unfold makePropertyType. rewrite fmap_cons in *.
  cbn [isStringType enumOf]. rewrite Hs, He. cbn [assert mbind result_bind].
  rewrite Hm. by destruct isNullable.
Qed.

Lemma totalOccurrences_Permutation (hs hs' : list (list (string * Z)))
    (value : string) :
  hs ≡ₚ hs' → totalOccurrences hs value = totalOccurrences hs' value.
Proof. induction 1; simpl; lia. Qed.

Lemma get_ext (m m' : list (string * Z)) (value : string) :
  (is_Some (get m value) ↔ is_Some (get m' value)) →
  occurrences m value = occurrences m' value →
  get m value = get m' value.
Proof.
  unfold occurrences. intros Hsome Hocc.
  destruct (get m value) as [a|], (get m' value) as [a'|]; simpl in *.
  - by subst.
  - by destruct Hsome as [[? ?] _].
  - by destruct Hsome as [_ [? ?]].
  - done.
Qed.

Lemma merged_Permutation (first first' : list (string * Z))
    (rest rest' : list (list (string * Z))) (value : string) :
  Forall (λ cases, NoDup cases.*1) (first :: rest) →
  first :: rest ≡ₚ first' :: rest' →
  get (fold_left (mergeWith Z.add) rest first) value
  = get (fold_left (mergeWith Z.add) rest' first') value.
Proof.
  intros Hnd Hperm.
  assert (Forall (λ cases : list (string * Z), NoDup cases.*1)
            (first' :: rest')) as Hnd' by by rewrite <- Hperm.
  apply Forall_cons in Hnd as [Hf Hr]. apply Forall_cons in Hnd' as [Hf' Hr'].
  destruct (reduce_mergeWith first rest Hf Hr) as [_ Hval].
  destruct (reduce_mergeWith first' rest' Hf' Hr') as [_ Hval'].
  destruct (Hval value) as [Hsome Hocc].
  destruct (Hval' value) as [Hsome' Hocc'].
  apply get_ext.
  - rewrite Hsome, Hsome', !Exists_exists. by setoid_rewrite Hperm.
  - rewrite Hocc, Hocc'. by apply totalOccurrences_Permutation.
Qed.

(** ** Clique membership of a single class *)

Lemma unmatched_aux (classes : list ClassType) (c : ClassType) :
  NoDup classes →
  (∀ d, d ∈ classes → d ≠ c →
     canBeCombined c d ≠ Ok true ∧ canBeCombined d c ≠ Ok true) →
  ∃ cliques,
    cliqueBuilder classes = Ok cliques
    ∧ ∀ clique, clique ∈ cliques → c ∉ clique.
Proof.
  intros Hnd Halone.
  destruct (cliqueBuilder_spec classes) as (cliques & Hc & Hall & Hsub).
  exists cliques. split; [done|]. intros clique Hclique Hin.
  rewrite Forall_forall in Hall. destruct (Hall clique Hclique) as [Hlen Hturn].
  assert (NoDup clique) as Hndq.
  { eapply concat_NoDup_member; [|exact Hclique].
    by eapply submseteq_NoDup. }
  assert (∀ d, d ∈ clique → d ∈ classes) as Hmem.
  { intros d Hd. apply (elem_of_submseteq (concat cliques)); [|done].
    apply elem_of_concat. by exists clique. }
  apply list_elem_of_lookup in Hin as [k Hk].
  destruct k as [|k].
  - destruct (lookup_lt_is_Some_2 clique 1) as [d Hd]; [lia|].
    assert (d ≠ c) as Hne.
    { intros ->. by pose proof (NoDup_lookup _ _ _ _ Hndq Hk Hd). }
    destruct (Halone d) as [_ Hdc]; [|done|].
    + apply Hmem. by eapply list_elem_of_lookup_2.
    + apply Hdc. apply (Hturn 0%nat 1%nat); [lia|done..].
  - destruct (lookup_lt_is_Some_2 clique 0) as [d Hd]; [lia|].
    assert (d ≠ c) as Hne.
    { intros ->. by pose proof (NoDup_lookup _ _ _ _ Hndq Hk Hd). }
    destruct (Halone d) as [Hcd _]; [|done|].
    + apply Hmem. by eapply list_elem_of_lookup_2.
    + apply Hcd. apply (Hturn 0%nat (S k)); [lia|done..].
Qed.

Lemma first_class_aux (seed : ClassType) (rest : list ClassType) :
  NoDup (seed :: rest) →
  ∃ cliques,
    cliqueBuilder (seed :: rest) = Ok cliques
    ∧ ((∃ clique, clique ∈ cliques ∧ seed ∈ clique)
       ↔ ∃ d, d ∈ rest ∧ canBeCombined d seed = Ok true).
Proof.
  intros [Hfresh Hnd]%NoDup_cons.
  unfold cliqueBuilder. simpl.
  destruct (sweep_greedy rest [seed] [])
    as (added & rejected & Hs & Ha & Hr & Hp & Hrej & Hadm).
  rewrite Hs. simpl.
  assert (length rejected ≤ length rest)%nat as Hlen
    by by apply sublist_length.
  destruct added as [|c added]; simpl.
  - destruct (buildCliques_spec (length rest) rejected [] Hlen)
      as (emitted & He & _ & Hsub).
    rewrite He. eexists. split; [done|]. simpl. split.
    + intros (clique & Hclique & Hin). exfalso. apply Hfresh.
      apply (elem_of_sublist rejected); [|done].
      apply (elem_of_submseteq (concat emitted)); [|done].
      apply elem_of_concat. by exists clique.
    + intros (d & Hd & Htrue). exfalso.
      simpl in Hp. rewrite Hp in Hd.
      destruct (Hrej d Hd) as (cc & Hcc & Hfalse).
      rewrite app_nil_r in Hcc. apply list_elem_of_singleton in Hcc as ->.
      congruence.
  - destruct (buildCliques_spec (length rest) rejected
                [seed :: c :: added] Hlen) as (emitted & He & _ & Hsub).
    rewrite He. eexists. split; [done|]. split.
    + intros _. exists c. split.
      * apply (elem_of_sublist (c :: added)); [by left|done].
      * apply Hadm; [by left|]. by apply list_elem_of_singleton.
    + intros _. exists (seed :: c :: added). split; by left.
Qed.

Lemma whole_clique_aux (classes : list ClassType) :
  (2 ≤ length classes)%nat → admittedInTurn classes →
  cliqueBuilder classes = Ok [classes].
Proof.
  intros Hlen Hturn. unfold cliqueBuilder.
  destruct classes as [|seed [|c rest]]; simpl in Hlen; try lia.
  cbn [buildCliques length].
  rewrite (sweep_all_admitted (c :: rest) [seed] []) by done.
  done.
Qed.

(** * Further properties of the code *)

(** ** [typeSetsCanBeCombined] *)

(** X1: two sets of one type each can be combined exactly when the two
    types are of the same kind and are equal or strings. *)
Theorem typeSetsCanBeCombined_singletons (t u : Ty) :
  typeSetsCanBeCombined [t] [u] = true
  ↔ kind t = kind u ∧ (equals t u = true ∨ kind t = "string").
Proof.
  rewrite typeSetsCanBeCombined_single, andb_true_iff, orb_true_iff,
    !bool_decide_eq_true.
  done.
Qed.

(** X2: a set with one member of each kind can be combined with
    itself. *)
Theorem typeSetsCanBeCombined_reflexive (s : list Ty) :
  oneOfEachKind s → typeSetsCanBeCombined s s = true.
Proof. apply typeSetsCanBeCombined_refl. Qed.

Lemma typeSetsCanBeCombined_reflexive_witness :
  oneOfEachKind [plainString; integerType; ClassRef 1]
  ∧ typeSetsCanBeCombined [plainString; integerType; ClassRef 1]
      [plainString; integerType; ClassRef 1] = true.
Proof.
  assert (oneOfEachKind [plainString; integerType; ClassRef 1]) as Hone
    by compute_done.
  split; [done|].
  apply (typeSetsCanBeCombined_reflexive
           [plainString; integerType; ClassRef 1] Hone).
Defined.

(** X3: on sets with one member of each kind the order of the two
    arguments does not matter. *)
Theorem typeSetsCanBeCombined_symmetric (s1 s2 : list Ty) :
  oneOfEachKind s1 → oneOfEachKind s2 →
  typeSetsCanBeCombined s1 s2 = typeSetsCanBeCombined s2 s1.
Proof. apply typeSetsCanBeCombined_sym. Qed.

Lemma typeSetsCanBeCombined_symmetric_witness :
  oneOfEachKind [enumOf [("a", 1)]; integerType]
  ∧ oneOfEachKind [integerType; plainString]
  ∧ typeSetsCanBeCombined [enumOf [("a", 1)]; integerType]
      [integerType; plainString]
    = typeSetsCanBeCombined [integerType; plainString]
        [enumOf [("a", 1)]; integerType].
Proof.
  assert (oneOfEachKind [enumOf [("a", 1)]; integerType]) as H1
    by compute_done.
  assert (oneOfEachKind [integerType; plainString]) as H2 by compute_done.
  split; [done|]. split; [done|].
  apply (typeSetsCanBeCombined_symmetric _ _ H1 H2).
Defined.

(** ** [canBeCombined] *)

(** X4: a class none of whose fields has two non-null members of the
    same kind can be combined with itself. *)
Theorem canBeCombined_reflexive (c : ClassType) :
  fieldsOneOfEachKind c → canBeCombined c c = Ok true.
Proof. apply canBeCombined_refl_aux. Qed.

Lemma canBeCombined_reflexive_witness :
  fieldsOneOfEachKind stringOrIntegerA
  ∧ canBeCombined stringOrIntegerA stringOrIntegerA = Ok true.
Proof.
  assert (fieldsOneOfEachKind stringOrIntegerA) as Hone by compute_done.
  split; [done|]. apply (canBeCombined_reflexive stringOrIntegerA Hone).
Defined.

(** X5: a class with a field that has two different non-null members
    of the same kind, other than string, cannot be combined with
    itself. *)
Theorem canBeCombined_self_rejected (c : ClassType) (name : string)
    (t u v : Ty) :
  properties c !! name = Some t →
  u ∈ nonNullTypeCases t → v ∈ nonNullTypeCases t →
  kind u = kind v → kind u ≠ "string" → u ≠ v →
  canBeCombined c c = Ok false.
Proof. apply canBeCombined_self_rejected_aux. Qed.

Lemma canBeCombined_self_rejected_witness :
  properties twoClassesField !! "f" = Some (UnionType [ClassRef 1; ClassRef 2])
  ∧ ClassRef 1 ∈ nonNullTypeCases (UnionType [ClassRef 1; ClassRef 2])
  ∧ ClassRef 2 ∈ nonNullTypeCases (UnionType [ClassRef 1; ClassRef 2])
  ∧ kind (ClassRef 1) = kind (ClassRef 2)
  ∧ kind (ClassRef 1) ≠ "string"
  ∧ ClassRef 1 ≠ ClassRef 2
  ∧ canBeCombined twoClassesField twoClassesField = Ok false.
Proof.
  assert (properties twoClassesField !! "f"
          = Some (UnionType [ClassRef 1; ClassRef 2])) as Hf
    by by vm_compute.
  assert (ClassRef 1 ∈ nonNullTypeCases (UnionType [ClassRef 1; ClassRef 2]))
    as H1 by (vm_compute; by left).
  assert (ClassRef 2 ∈ nonNullTypeCases (UnionType [ClassRef 1; ClassRef 2]))
    as H2 by (vm_compute; right; by left).
  assert (kind (ClassRef 1) ≠ "string") as Hs by done.
  assert (ClassRef 1 ≠ ClassRef 2) as Hne by done.
  repeat (split; [done|]).
  apply (canBeCombined_self_rejected twoClassesField "f"
           (UnionType [ClassRef 1; ClassRef 2]) (ClassRef 1) (ClassRef 2)
           Hf H1 H2 eq_refl Hs Hne).
Defined.

(** X6: a class without fields can be combined, in either order, with
    exactly the classes without fields. *)
Theorem canBeCombined_empty (c1 c2 : ClassType) :
  properties c1 = ∅ →
  (canBeCombined c1 c2 = Ok true ↔ properties c2 = ∅)
  ∧ (canBeCombined c2 c1 = Ok true ↔ properties c2 = ∅).
Proof. apply canBeCombined_empty_aux. Qed.

Lemma canBeCombined_empty_witness :
  properties noFields = ∅
  ∧ (canBeCombined noFields stringField = Ok true
     ↔ properties stringField = ∅)
  ∧ (canBeCombined stringField noFields = Ok true
     ↔ properties stringField = ∅).
Proof.
  split; [done|]. apply (canBeCombined_empty noFields stringField eq_refl).
Defined.

(** X7: two classes that can be combined have at least
    [ceil (0.75 * n)] field names in common, [n] being the size of the
    larger one. *)
Theorem canBeCombined_overlap (c1 c2 : ClassType) :
  canBeCombined c1 c2 = Ok true →
  (3 * Z.of_nat (Nat.max (size (properties c1)) (size (properties c2))) + 3)
    / 4
  ≤ Z.of_nat (size (dom (properties c1) ∩ dom (properties c2))).
Proof. apply canBeCombined_overlap_aux. Qed.

Lemma canBeCombined_overlap_witness :
  canBeCombined fourFields threeFields = Ok true
  ∧ (3 * Z.of_nat
           (Nat.max (size (properties fourFields))
              (size (properties threeFields))) + 3) / 4
    ≤ Z.of_nat
        (size (dom (properties fourFields) ∩ dom (properties threeFields))).
Proof.
  assert (canBeCombined fourFields threeFields = Ok true) as Htrue
    by by vm_compute.
  split; [done|]. apply (canBeCombined_overlap fourFields threeFields Htrue).
Defined.

(** X8: two classes of at most 3 fields each can be combined only if
    they have the same field names. *)
Theorem canBeCombined_small_same_names (c1 c2 : ClassType) :
  (size (properties c1) ≤ 3)%nat → (size (properties c2) ≤ 3)%nat →
  canBeCombined c1 c2 = Ok true →
  dom (properties c1) = dom (properties c2).
Proof. apply canBeCombined_small_aux. Qed.

Lemma canBeCombined_small_same_names_witness :
  (size (properties stringField) ≤ 3)%nat
  ∧ (size (properties nullableStringField) ≤ 3)%nat
  ∧ canBeCombined stringField nullableStringField = Ok true
  ∧ dom (properties stringField) = dom (properties nullableStringField).
Proof.
  assert (size (properties stringField) ≤ 3)%nat as H1
    by (vm_compute; lia).
  assert (size (properties nullableStringField) ≤ 3)%nat as H2
    by (vm_compute; lia).
  assert (canBeCombined stringField nullableStringField = Ok true) as Htrue
    by by vm_compute.
  repeat (split; [done|]).
  apply (canBeCombined_small_same_names stringField nullableStringField
           H1 H2 Htrue).
Defined.

(** X9: the predicate reads the field types only through their non-null
    members: classes with the same field names and, field by field, the
    same non-null members give the same result. *)
Theorem canBeCombined_nullability (c1 c1' c2 c2' : ClassType) :
  sameNonNullCases (properties c1) (properties c1') →
  sameNonNullCases (properties c2) (properties c2') →
  canBeCombined c1 c2 = canBeCombined c1' c2'.
Proof. apply canBeCombined_sameNonNullCases_aux. Qed.

Lemma canBeCombined_nullability_witness :
  sameNonNullCases (properties stringField) (properties nullableStringField)
  ∧ sameNonNullCases (properties stringOrIntegerA)
      (properties stringOrIntegerB)
  ∧ canBeCombined stringField stringOrIntegerA
    = canBeCombined nullableStringField stringOrIntegerB.
Proof.
  assert (sameNonNullCases (properties stringField)
            (properties nullableStringField)) as H1.
  { intros name. unfold stringField, nullableStringField, classOf.
    cbn [properties list_to_map foldr fst snd].
    destruct (decide (name = "f")) as [->|Hne].
    - by rewrite !lookup_insert_eq.
    - by rewrite !lookup_insert_ne. }
  assert (sameNonNullCases (properties stringOrIntegerA)
            (properties stringOrIntegerB)) as H2 by done.
  split; [done|]. split; [done|].
  apply (canBeCombined_nullability _ _ _ _ H1 H2).
Defined.

(** ** [isPartOfClique] *)

(** X10: [isPartOfClique] returns a boolean, and it returns true exactly
    when the class, as first argument of the predicate, combines with
    every member of the clique. *)
Theorem isPartOfClique_contract (c : ClassType) (clique : list ClassType) :
  (∃ b, isPartOfClique c clique = Ok b)
  ∧ (isPartOfClique c clique = Ok true
     ↔ ∀ cc, cc ∈ clique → canBeCombined c cc = Ok true).
Proof.
  destruct (isPartOfClique_spec c clique) as (b & Hb & Hiff).
  split; [by exists b|]. rewrite Hb, <- Hiff. split; congruence.
Qed.

(** ** The clique builder of [combineClasses] *)

(** X11: every emitted clique lists its members in the order of the
    input list. *)
Theorem cliques_in_input_order (classes : list ClassType) :
  ∃ cliques,
    cliqueBuilder classes = Ok cliques
    ∧ Forall (λ clique, clique `sublist_of` classes) cliques.
Proof.
  destruct (cliqueBuilder_greedy classes) as (cliques & Hc & Hsub & _).
  by exists cliques.
Qed.

(** X12: there are at most half as many cliques as classes; a list of
    fewer than two classes gives no clique. *)
Theorem cliques_count (classes : list ClassType) :
  ∃ cliques,
    cliqueBuilder classes = Ok cliques
    ∧ (2 * length cliques ≤ length classes)%nat
    ∧ ((length classes < 2)%nat → cliques = []).
Proof.
  destruct (cliqueBuilder_spec classes) as (cliques & Hc & Hall & Hsub).
  exists cliques. split; [done|].
  assert (2 * length cliques ≤ length classes)%nat as Hcount.
  { apply submseteq_length in Hsub.
    etrans; [|exact Hsub]. apply concat_length_pairs.
    eapply Forall_impl; [exact Hall|]. by intros q [? _]. }
  split; [done|]. intros Hfew. destruct cliques; [done|simpl in *; lia].
Qed.

(** X13: a list of at least two classes in which every class combines,
    as candidate, with all the classes before it is emitted as one
    clique. *)
Theorem cliqueBuilder_whole_clique (classes : list ClassType) :
  (2 ≤ length classes)%nat → admittedInTurn classes →
  cliqueBuilder classes = Ok [classes].
Proof. apply whole_clique_aux. Qed.

Lemma cliqueBuilder_whole_clique_witness :
  (2 ≤ length [fourFields; threeFields])%nat
  ∧ admittedInTurn [fourFields; threeFields]
  ∧ cliqueBuilder [fourFields; threeFields] = Ok [[fourFields; threeFields]].
Proof.
  assert (2 ≤ length [fourFields; threeFields])%nat as Hlen by (simpl; lia).
  assert (admittedInTurn [fourFields; threeFields]) as Hturn.
  { intros i j ci cj Hlt Hi Hj.
    destruct j as [|[|j]]; [lia| |done].
    destruct i as [|i]; [|lia]. simpl in Hi, Hj.
    injection Hi as <-. injection Hj as <-. by vm_compute. }
  split; [done|]. split; [done|].
  apply (cliqueBuilder_whole_clique _ Hlen Hturn).
Defined.

(** X14: among distinct classes, a class that combines with no other
    class of the list, in either order, is in no clique. *)
Theorem unmatched_class_in_no_clique (classes : list ClassType)
    (c : ClassType) :
  NoDup classes →
  (∀ d, d ∈ classes → d ≠ c →
     canBeCombined c d ≠ Ok true ∧ canBeCombined d c ≠ Ok true) →
  ∃ cliques,
    cliqueBuilder classes = Ok cliques
    ∧ ∀ clique, clique ∈ cliques → c ∉ clique.
Proof. apply unmatched_aux. Qed.

Lemma unmatched_class_in_no_clique_witness :
  NoDup [fourFields; stringField; threeFields]
  ∧ (∀ d, d ∈ [fourFields; stringField; threeFields] → d ≠ stringField →
       canBeCombined stringField d ≠ Ok true
       ∧ canBeCombined d stringField ≠ Ok true)
  ∧ ∃ cliques,
      cliqueBuilder [fourFields; stringField; threeFields] = Ok cliques
      ∧ ∀ clique, clique ∈ cliques → stringField ∉ clique.
Proof.
  assert (NoDup [fourFields; stringField; threeFields]) as Hnd
    by (apply (NoDup_fmap_1 typeRef); compute_done).
  assert (∀ d, d ∈ [fourFields; stringField; threeFields] →
            d ≠ stringField →
            canBeCombined stringField d ≠ Ok true
            ∧ canBeCombined d stringField ≠ Ok true) as Halone.
  { intros d Hd Hne.
    apply elem_of_cons in Hd as [->|Hd]; [by vm_compute|].
    apply elem_of_cons in Hd as [->|Hd]; [done|].
    apply list_elem_of_singleton in Hd as ->. by vm_compute. }
  split; [done|]. split; [done|].
  apply (unmatched_class_in_no_clique _ _ Hnd Halone).
Defined.

(** X15: among distinct classes, the first class of the list is in a
    clique exactly when some later class combines with it as
    candidate. *)
Theorem first_class_in_clique (seed : ClassType) (rest : list ClassType) :
  NoDup (seed :: rest) →
  ∃ cliques,
    cliqueBuilder (seed :: rest) = Ok cliques
    ∧ ((∃ clique, clique ∈ cliques ∧ seed ∈ clique)
       ↔ ∃ d, d ∈ rest ∧ canBeCombined d seed = Ok true).
Proof. apply first_class_aux. Qed.

Lemma first_class_in_clique_witness :
  NoDup [fourFields; stringField; threeFields]
  ∧ ∃ cliques,
      cliqueBuilder [fourFields; stringField; threeFields] = Ok cliques
      ∧ ((∃ clique, clique ∈ cliques ∧ fourFields ∈ clique)
         ↔ ∃ d, d ∈ [stringField; threeFields]
                ∧ canBeCombined d fourFields = Ok true).
Proof.
  assert (NoDup [fourFields; stringField; threeFields]) as Hnd
    by (apply (NoDup_fmap_1 typeRef); compute_done).
  split; [done|].
  apply (first_class_in_clique fourFields [stringField; threeFields] Hnd).
Defined.

(** X16: every member of a later clique was rejected by each earlier
    clique: it fails the predicate, as candidate, against some member of
    the earlier clique. *)
Theorem later_cliques_rejected (classes : list ClassType) :
  ∃ cliques, cliqueBuilder classes = Ok cliques ∧ laterRejected cliques.
Proof.
  destruct (cliqueBuilder_greedy classes) as (cliques & Hc & _ & Hlater).
  by exists cliques.
Qed.

(** ** [makePropertyType] *)

(** X17: the property merger fails only by its assertion, and exactly
    on a type set that starts with a string type and holds a type that
    is not a string type; on every other type set it returns a type. *)
Theorem makePropertyType_outcome (names : TypeNames) (types : list Ty)
    (isNullable : bool) :
  if match types with
     | first :: _ => isStringType first && negb (forallb isStringType types)
     | [] => false
     end
  then makePropertyType names types isNullable
       = Thrown
           "Assertion failed: We can't combine strings with other types when combining classes"
  else ∃ tref, makePropertyType names types isNullable = Ok tref.
Proof. apply makePropertyType_outcome_aux. Qed.

(** X18: the histogram merged from string types that all carry one
    records as many observations as all their histograms together. *)
Theorem makePropertyType_enums_total (names : TypeNames)
    (first : list (string * Z)) (rest : list (list (string * Z)))
    (isNullable : bool) :
  ∃ mergedCases,
    makePropertyType names (enumOf <$> first :: rest) isNullable
    = Ok (if isNullable
          then makeNullable (getStringType names (Some mergedCases)) names
          else getStringType names (Some mergedCases))
    ∧ totalCount mergedCases
      = foldr (λ cases total, totalCount cases + total) 0 (first :: rest).
Proof.
  exists (fold_left (mergeWith Z.add) rest first).
  split; [apply makePropertyType_enums_merged|apply totalCount_reduce].
Qed.

(** X19: the order of the string types in the set changes at most the
    order of the values in the merged histogram, not their counts. *)
Theorem makePropertyType_enums_order (names : TypeNames)
    (first first' : list (string * Z))
    (rest rest' : list (list (string * Z))) (isNullable : bool) :
  Forall (λ cases, NoDup cases.*1) (first :: rest) →
  first :: rest ≡ₚ first' :: rest' →
  ∃ mergedCases mergedCases',
    makePropertyType names (enumOf <$> first :: rest) isNullable
    = Ok (if isNullable
          then makeNullable (getStringType names (Some mergedCases)) names
          else getStringType names (Some mergedCases))
    ∧ makePropertyType names (enumOf <$> first' :: rest') isNullable
      = Ok (if isNullable
            then makeNullable (getStringType names (Some mergedCases')) names
            else getStringType names (Some mergedCases'))
    ∧ ∀ value, get mergedCases value = get mergedCases' value.
Proof.
  intros Hnd Hperm.
  exists (fold_left (mergeWith Z.add) rest first),
    (fold_left (mergeWith Z.add) rest' first').
  split; [apply makePropertyType_enums_merged|].
  split; [apply makePropertyType_enums_merged|].
  intros value. by apply merged_Permutation.
Qed.

Lemma makePropertyType_enums_order_witness :
  Forall (λ cases : list (string * Z), NoDup cases.*1)
    [[("red", 2)]; [("blue", 5); ("red", 1)]]
  ∧ [[("red", 2)]; [("blue", 5); ("red", 1)]]
    ≡ₚ [[("blue", 5); ("red", 1)]; [("red", 2)]]
  ∧ makePropertyType ["color"]
      [enumOf [("blue", 5); ("red", 1)]; enumOf [("red", 2)]] false
    = Ok (getStringType ["color"] (Some [("blue", 5); ("red", 3)]))
  ∧ ∃ mergedCases mergedCases',
      makePropertyType ["color"]
        (enumOf <$> [[("red", 2)]; [("blue", 5); ("red", 1)]]) false
      = Ok (getStringType ["color"] (Some mergedCases))
      ∧ makePropertyType ["color"]
          (enumOf <$> [[("blue", 5); ("red", 1)]; [("red", 2)]]) false
        = Ok (getStringType ["color"] (Some mergedCases'))
      ∧ ∀ value, get mergedCases value = get mergedCases' value.
Proof.
  assert (Forall (λ cases : list (string * Z), NoDup cases.*1)
            [[("red", 2)]; [("blue", 5); ("red", 1)]]) as Hnd
    by compute_done.
  assert ([[("red", 2)]; [("blue", 5); ("red", 1)]]
          ≡ₚ [[("blue", 5); ("red", 1)]; [("red", 2)]]) as Hperm
    by apply perm_swap.
  split; [done|]. split; [done|]. split; [by vm_compute|].
  apply (makePropertyType_enums_order ["color"] _ _ _ _ false Hnd Hperm).
Defined.

(** ** The walk of [canBeCombined] *)

(** X20: the outcome of the walk over the smaller map and of the loop
    over the common properties is the same for every order in which
    [forEach] visits the entries. *)
Theorem forEach_order_irrelevant (smaller larger : gmap string Ty)
    (maxFaults : Z) (entries : list (string * Ty)) :
  entries ≡ₚ map_to_list smaller →
  (let '(commonProperties, faults) :=
     walkSmaller larger maxFaults entries [] 0 in
   if faults >? maxFaults then Ok false
   else checkCommon smaller larger commonProperties)
  = (let '(commonProperties, faults) :=
       walkSmaller larger maxFaults (map_to_list smaller) [] 0 in
     if faults >? maxFaults then Ok false
     else checkCommon smaller larger commonProperties).
Proof. apply walk_order_irrelevant. Qed.

Lemma forEach_order_irrelevant_witness :
  reverse (map_to_list (properties threeFields))
  ≡ₚ map_to_list (properties threeFields)
  ∧ (let '(commonProperties, faults) :=
       walkSmaller (properties fourFields) 0
         (reverse (map_to_list (properties threeFields))) [] 0 in
     if faults >? 0 then Ok false
     else checkCommon (properties threeFields) (properties fourFields)
            commonProperties)
    = (let '(commonProperties, faults) :=
         walkSmaller (properties fourFields) 0
           (map_to_list (properties threeFields)) [] 0 in
       if faults >? 0 then Ok false
       else checkCommon (properties threeFields) (properties fourFields)
              commonProperties).
Proof.
  assert (reverse (map_to_list (properties threeFields))
          ≡ₚ map_to_list (properties threeFields)) as Hperm
    by apply reverse_Permutation.
  split; [done|].
  apply (forEach_order_irrelevant (properties threeFields)
           (properties fourFields) 0 _ Hperm).
Defined.

(** ** The predicate and the property merger *)

Lemma kind_string (u : Ty) : kind u = "string" → isStringType u = true.
Proof. destruct u as [[]| | | | |]; done. Qed.

Lemma isStringType_kind (u : Ty) : isStringType u = true → kind u = "string".
Proof. by destruct u. Qed.

Lemma canBeCombined_single_members (a b : ClassType) (name : string)
    (ta tb ua ub : Ty) :
  canBeCombined a b = Ok true →
  properties a !! name = Some ta → properties b !! name = Some tb →
  nonNullTypeCases ta = [ua] → nonNullTypeCases tb = [ub] →
  kind ua = kind ub.
Proof.
  intros (_ & _ & Hagree)%canBeCombined_Ok_true Ha Hb Hua Hub.
  revert Hagree. unfold smallerOf, largerOf.
  destruct (size (properties b) <? size (properties a))%nat; intros Hagree.
  - specialize (Hagree name tb ta Hb Ha). rewrite Hua, Hub in Hagree.
    rewrite typeSetsCanBeCombined_single in Hagree by done.
    apply andb_true_iff in Hagree as [Hk _]; [|done..].
    by apply bool_decide_eq_true in Hk.
  - specialize (Hagree name ta tb Ha Hb). rewrite Hua, Hub in Hagree.
    rewrite typeSetsCanBeCombined_single in Hagree by done.
    apply andb_true_iff in Hagree as [Hk _]; [|done..].
    by apply bool_decide_eq_true in Hk.
Qed.

Lemma clique_single_members (clique : list ClassType) (ci cj : ClassType)
    (name : string) (ti tj ui uj : Ty) :
  admittedInTurn clique → ci ∈ clique → cj ∈ clique →
  properties ci !! name = Some ti → properties cj !! name = Some tj →
  nonNullTypeCases ti = [ui] → nonNullTypeCases tj = [uj] →
  kind ui = kind uj.
Proof.
  intros Hturn [i Hi]%list_elem_of_lookup [j Hj]%list_elem_of_lookup
    Hti Htj Hui Huj.
  destruct (Nat.lt_total i j) as [Hlt|[->|Hgt]].
  - symmetry. eapply (canBeCombined_single_members cj ci); try done.
    by apply (Hturn i j).
  - rewrite Hi in Hj. injection Hj as <-.
    rewrite Hti in Htj. injection Htj as <-. congruence.
  - eapply (canBeCombined_single_members ci cj); try done.
    by apply (Hturn j i).
Qed.

(** X21: in a clique built by the loop, the types that are the only
    non-null member of a field in some member of the clique are all of
    one kind, and on a type set made of such types the property merger
    returns a type: its assertion does not fire. *)
Theorem emitted_clique_single_members (classes : list ClassType)
    (names : TypeNames) (isNullable : bool) :
  ∃ cliques,
    cliqueBuilder classes = Ok cliques
    ∧ ∀ clique name,
        clique ∈ cliques →
        (∀ ci cj ti tj ui uj,
           ci ∈ clique → cj ∈ clique →
           properties ci !! name = Some ti →
           properties cj !! name = Some tj →
           nonNullTypeCases ti = [ui] → nonNullTypeCases tj = [uj] →
           kind ui = kind uj)
        ∧ ∀ types,
            (∀ u, u ∈ types →
               ∃ c t, c ∈ clique ∧ properties c !! name = Some t
                      ∧ nonNullTypeCases t = [u]) →
            ∃ tref, makePropertyType names types isNullable = Ok tref.
Proof.
  destruct (cliqueBuilder_spec classes) as (cliques & Hc & Hall & _).
  exists cliques. split; [done|]. intros clique name Hclique.
  rewrite Forall_forall in Hall. destruct (Hall clique Hclique) as [_ Hturn].
  split.
  { intros ci cj ti tj ui uj. by apply clique_single_members. }
  intros types Hfrom.
  pose proof (makePropertyType_outcome_aux names types isNullable) as Hout.
  destruct types as [|first rest]; [done|].
  destruct (isStringType first) eqn:Hfirst; [|done].
  assert (forallb isStringType (first :: rest) = true) as Hstrings.
  { apply forallb_forall. intros u Hu%list_elem_of_In.
    destruct (Hfrom first) as (cf & tf & Hcf & Htf & Hnf); [by left|].
    destruct (Hfrom u Hu) as (cu & tu & Hcu & Htu & Hnu).
    apply kind_string.
    rewrite (clique_single_members clique cu cf name tu tf u first)
      by done.
    by apply isStringType_kind. }
  by rewrite Hstrings in Hout.
Qed.

(** The restriction to single non-null members matters: the predicate
    admits two classes whose field is a string or an integer, and on the
    set of these two members the property merger throws. *)
Example mixed_members_admitted :
  cliqueBuilder [stringOrIntegerA; stringOrIntegerB]
  = Ok [[stringOrIntegerA; stringOrIntegerB]]
  ∧ nonNullTypeCases (UnionType [plainString; integerType])
    = [plainString; integerType]
  ∧ makePropertyType ["f"] [plainString; integerType] false
    = Thrown
        "Assertion failed: We can't combine strings with other types when combining classes".
Proof. repeat split; by vm_compute. Qed.
